(** * robustpca: bootstrap and pass orchestration of the robust iterative PCA

    A shallow embedding of [robustpca.py].  Arrays of float64 are lists of
    primitive binary64 floats, 2-d arrays are lists of rows (so an array
    without rows carries no width), Python exceptions are the [Raise] branch
    of [result], and the external collaborators ([numpy.linalg.svd], numpy's
    global random generator, the [core] updaters and weighting functions,
    [utilitymasking]) are the variables of the section.  State that the
    source mutates is passed explicitly: the generator, the array handed to
    [mag_residual_sq], and the loop variables of [run_robust_pca]. *)

From Stdlib Require Import String.
From Stdlib Require Import List ZArith Lia Bool Arith Floats Permutation.
From Stdlib Require Uint63.
Import ListNotations.

Set Warnings "-inexact-float".

(** ** Python values and exceptions *)

Definition vector := list float.
Definition matrix := list (list float).

Inductive exn :=
| TypeError (msg : string)
| IndexError
| ValueError
| KeyError
| ZeroDivisionError
| LinAlgError.

Inductive result (A : Type) :=
| Ok (a : A)
| Raise (e : exn).

Arguments Ok {A} a.
Arguments Raise {A} e.

Definition bind {A B} (r : result A) (k : A -> result B) : result B :=
  match r with
  | Ok a => k a
  | Raise e => Raise e
  end.

Notation "x <- r ;; k" := (bind r (fun x => k))
  (at level 61, r at next level, right associativity).
Notation "' p <- r ;; k" := (bind r (fun x => match x with p => k end))
  (at level 61, p pattern, r at next level, right associativity).

(** [for x in xs: acc = body(acc, x)], stopping at the first exception. *)
Fixpoint for_each {A S} (body : S -> A -> result S) (xs : list A) (acc : S)
  : result S :=
  match xs with
  | [] => Ok acc
  | x :: xs' => acc' <- body acc x ;; for_each body xs' acc'
  end.

(** [range(start, stop)] *)
Definition range (start stop : nat) : list nat := seq start (stop - start).

Fixpoint map2 {A B C} (f : A -> B -> C) (l : list A) (l' : list B) : list C :=
  match l, l' with
  | a :: t, b :: t' => f a b :: map2 f t t'
  | _, _ => []
  end.

(** ** The numpy operations the module uses *)

Module np.

Definition of_nat (n : nat) : float := of_uint63 (Uint63.of_Z (Z.of_nat n)).

Definition nan_to_zero (x : float) : float := if is_nan x then 0%float else x.

(** [np.sum] of a 1-d array, accumulated from the left (numpy adds the
    same terms pairwise, which can differ in the last bits). *)
Definition sum (a : vector) : float := fold_left PrimFloat.add a 0%float.

(** [np.nansum]: the sum with every NaN replaced by zero. *)
Definition nansum (a : vector) : float := sum (map nan_to_zero a).

Definition count_valid (a : vector) : nat :=
  length (filter (fun x => negb (is_nan x)) a).

(** [np.nanmean]: NaN-replaced sum over the number of non-NaN entries;
    0/0 = NaN when there is none. *)
Definition nanmean (a : vector) : float :=
  (nansum a / of_nat (count_valid a))%float.

(** [np.mean] *)
Definition mean (a : vector) : float := (sum a / of_nat (length a))%float.

Definition shape0 (a : matrix) : nat := length a.
Definition shape1 (a : matrix) : nat := length (hd [] a).

Definition column (j : nat) (a : matrix) : vector :=
  map (fun row => nth j row nan) a.

(** [a.T] *)
Definition transpose (a : matrix) : matrix :=
  map (fun j => column j a) (seq 0 (shape1 a)).

Definition nanmean_axis0 (a : matrix) : vector := map nanmean (transpose a).
Definition nansum_axis1 (a : matrix) : vector := map nansum a.

(** [a - v] with [v] broadcast over the rows. *)
Definition sub_rows (a : matrix) (v : vector) : matrix :=
  map (fun row => map2 PrimFloat.sub row v) a.

(** [a - b], elementwise. *)
Definition sub (a b : matrix) : matrix := map2 (map2 PrimFloat.sub) a b.

Definition div_scalar (a : matrix) (s : float) : matrix :=
  map (map (fun x => (x / s)%float)) a.

Definition vdiv_scalar (a : vector) (s : float) : vector :=
  map (fun x => (x / s)%float) a.

Definition square (a : matrix) : matrix := map (map (fun x => (x * x)%float)) a.
Definition vsquare (a : vector) : vector := map (fun x => (x * x)%float) a.

Definition dot (u v : vector) : float := sum (map2 PrimFloat.mul u v).

(** [np.matmul] of two 2-d arrays; mismatched inner dimensions raise. *)
Definition matmul (a b : matrix) : result matrix :=
  if forallb (fun row => length row =? length b) a
  then Ok (map (fun row => map (dot row) (transpose b)) a)
  else Raise ValueError.

(** [np.matmul(a, b.T)]: the rows of [a] against the rows of [b]. *)
Definition matmul_T (a b : matrix) : result matrix :=
  if forallb (fun row => forallb (fun row' => length row =? length row') b) a
  then Ok (map (fun row => map (dot row) b) a)
  else Raise ValueError.

Definition zeros (n : nat) : vector := repeat 0%float n.
Definition zeros2 (n k : nat) : matrix := repeat (zeros k) n.

Definition finite_all (a : matrix) : bool := forallb (forallb is_finite) a.

End np.

(** ** The state bundles *)

(** The eigen-system dictionary, keys ['U'], ['m'], ['W'], ['vqu'], ['sig2']. *)
Record eigen_system := mk_eigen_system
  { es_U : matrix;
    es_m : vector;
    es_W : vector;
    es_vqu : float * float * float;
    es_sig2 : float }.

(** The tracking dictionary, keys ['W'], ['sig2'], ['vqu']. *)
Record tracked_eigen_system := mk_tracked
  { tr_W : matrix;
    tr_sig2 : vector;
    tr_vqu : vector }.

(** [tracked_eigen_system_dict]: the empty dictionary the run starts with,
    or the three buffers. *)
Inductive tracking :=
| EmptyDict
| Buffers (t : tracked_eigen_system).

(** The loop variables of [run_robust_pca].  [ls_allocated] is a ghost
    field: the number of calls of [initialise_tracked_eigen_updates] so far,
    each of which creates the three buffers anew. *)
Record loop_state := mk_loop_state
  { ls_es : eigen_system;
    ls_tracked : tracking;
    ls_counter : nat;
    ls_allocated : nat }.

(** What [errors] is bound to in [run_robust_pca]: [None], an array shaped
    like the data, or the list [[None] * amount_of_spectra]. *)
Inductive py_errors :=
| ErrNone
| ErrArray (a : matrix)
| ErrNoneList (n : nat).

(** The attribute [np.random.seed]: the seeding function, until something
    is assigned over it. *)
Inductive seed_attr :=
| SeedFunction
| SeedOverwritten (v : Z).

(** [0.787**2] *)
Definition default_c_sq : float := (0.787 * 0.787)%float.

Definition getitem {A} (a : list A) (i : nat) : result A :=
  match nth_error a i with
  | Some x => Ok x
  | None => Raise IndexError
  end.

(** [a[i] = v] on an array of length [length a]. *)
Definition setitem {A} (a : list A) (i : nat) (v : A) : result (list A) :=
  if i <? length a then Ok (firstn i a ++ v :: skipn (S i) a)
  else Raise IndexError.

(** [a[indices]], integer-array indexing along axis 0. *)
Fixpoint take {A} (a : list A) (indices : list nat) : result (list A) :=
  match indices with
  | [] => Ok []
  | i :: rest => x <- getitem a i ;; xs <- take a rest ;; Ok (x :: xs)
  end.

Definition same_shape (a b : matrix) : bool :=
  (length a =? length b) &&
  forallb (fun x => x) (map2 (fun r r' => length r =? length r') a b).

(** [a[mask == 0] = np.nan]: the boolean index must have the shape of [a]. *)
Definition assign_nan_where_zero (a mask : matrix) : result matrix :=
  if same_shape a mask
  then Ok (map2 (map2 (fun x e => if (e =? 0)%float then nan else x)) a mask)
  else Raise IndexError.

(** [buffer[i] = w] for a row [w]: a row of the buffer's width is copied,
    a one-element row is broadcast, anything else raises. *)
Definition setrow (buffer : matrix) (i : nat) (w : vector) : result matrix :=
  match nth_error buffer i with
  | None => Raise IndexError
  | Some old =>
      if length w =? length old then setitem buffer i w
      else if length w =? 1 then setitem buffer i (repeat (hd nan w) (length old))
      else Raise ValueError
  end.

Definition svd_message : string :=
  "Cannot have nans present in the data. Please set NaNs and infs to a reasonable finite number before running the PCA. These bad values are reconstructed using the gappy routines by setting the `errors` array to the value `0` at these locations to indicate these are masked values.To do this, you can use the convenience function `replace_nonfinite_with_median`".

(** [needle in haystack] *)
Fixpoint contains (needle haystack : string) : bool :=
  if String.prefix needle haystack then true
  else match haystack with
       | EmptyString => false
       | String _ rest => contains needle rest
       end.

(** ** Stand-ins for the external collaborators

    Only used to run the functions on concrete inputs. *)

(** A decomposition of an array with a single column: one singular value,
    the norm of the column, and the right singular vector [1]; the left
    factor, which the module drops, is left empty.  It raises, as numpy does
    when the decomposition does not converge, on an array with a NaN entry;
    an infinite entry does not make it raise. *)
Definition svd_one_column (a : matrix) : result (matrix * vector * matrix) :=
  if forallb (forallb (fun x => negb (is_nan x))) a then
    let col := np.column 0 a in
    Ok ([], [sqrt (np.dot col col)], [[1%float]])
  else Raise LinAlgError.

(** A Cauchy-like weighting, t / (t + c_sq), and its derivative. *)
Definition rho_example (t c_sq : float) : float := (t / (t + c_sq))%float.
Definition rho_derivative_example (t c_sq : float) : float :=
  (c_sq / ((t + c_sq) * (t + c_sq)))%float.

(** An updater that appends the observation it is given to the mean vector,
    so that the order of processing can be read off the final state. *)
Definition spy_update (es : eigen_system) (new_spectra : vector)
  (alpha : float) (error_array : option vector) (delta c_sq : float)
  : eigen_system :=
  {| es_U := es_U es; es_m := es_m es ++ new_spectra; es_W := es_W es;
     es_vqu := es_vqu es; es_sig2 := es_sig2 es |}.

(** An updater for data with gaps that appends the observation and then the
    mask row it is given, so that the pairing of observations and mask rows
    can be read off the final state as well. *)
Definition spy_update_with_gaps (es : eigen_system) (new_spectra : vector)
  (alpha : float) (error_array : option vector) (delta c_sq : float)
  : eigen_system :=
  {| es_U := es_U es;
     es_m := es_m es ++ new_spectra
             ++ match error_array with Some e => e | None => [] end;
     es_W := es_W es; es_vqu := es_vqu es; es_sig2 := es_sig2 es |}.

Definition keep_data (data : matrix) (errors : option matrix)
  : matrix * option matrix := (data, errors).

(** A generator whose state is a counter: the shuffle rotates the array by
    the counter and advances it. *)
Definition rotate_shuffle (g : nat) (l : list nat) : list nat * nat :=
  let k := g mod (length l) in
  (skipn k l ++ firstn k l, S g).

(** The observations 0, 1, ..., 999, one feature each. *)
Definition data1000 : matrix := map (fun i => [np.of_nat i]) (seq 0 1000).

(** Three observations of one feature. *)
Definition data3 : matrix := [[1%float]; [2%float]; [3%float]].

(** A state with one eigenvalue, and buffers of two rows for it. *)
Definition state_example : eigen_system :=
  {| es_U := [[1%float]]; es_m := [0%float]; es_W := [5%float];
     es_vqu := (3%float, 0%float, 1%float); es_sig2 := 2%float |}.

Definition buffers_example : tracking :=
  Buffers {| tr_W := np.zeros2 2 1; tr_sig2 := np.zeros 2;
             tr_vqu := np.zeros 2 |}.

(** ** The module's functions *)

Section Robustpca.

(** [numpy.linalg.svd]: the triple (u, s, vh), or an exception. *)
Variable svd : matrix -> result (matrix * vector * matrix).

(** [core.cauchy_like_function] and [core.derivate_of_cauchy_like_function],
    per their contract [Weight(t, shape) -> value], applied entry by entry. *)
Variable cauchy_like_function : float -> float -> float.
Variable derivate_of_cauchy_like_function : float -> float -> float.

(** [core.iterate_PCA] and [core.iterate_PCA_with_data_gaps]:
    state, new_spectra, alpha, error_array, delta, c_sq -> next state. *)
Variable iterate_PCA iterate_PCA_with_data_gaps :
  eigen_system -> vector -> float -> option vector -> float -> float ->
  eigen_system.

(** [utilitymasking.check_and_make_data_finite] *)
Variable check_and_make_data_finite :
  matrix -> option matrix -> matrix * option matrix.

(** The state of numpy's global generator, and [np.random.shuffle] on an
    index array. *)
Variable G : Type.
Variable shuffle : G -> list nat -> list nat * G.

(** The module [np.random] as the run sees it. *)
Record np_random := mk_np_random
  { bit_generator : G;
    seed : seed_attr }.

Definition mean_subtracted_data (data : matrix) (errors : option matrix)
  : matrix * vector :=
  let vector_mean := np.nanmean_axis0 data in
  let centred_data := np.sub_rows data vector_mean in
  (centred_data, vector_mean).

Definition do_initial_SVD (data : matrix) : result (matrix * vector) :=
  match svd data with
  | Ok (_, singular_values, eigen_vectors_T) =>
      Ok (eigen_vectors_T, singular_values)
  | Raise LinAlgError => Raise (TypeError svd_message)
  | Raise e => Raise e
  end.

Definition get_eigen_system (data : matrix) : result (matrix * vector) :=
  '(eigen_vectors_T, singular_values) <- do_initial_SVD data ;;
  let eigen_values := np.vsquare singular_values in
  Ok (np.transpose eigen_vectors_T, eigen_values).

Definition initalise_eigensystem (data_centred : matrix)
  : result (matrix * vector) :=
  let amount_of_data_vectors := np.shape0 data_centred in
  let data_normed :=
    np.div_scalar data_centred (sqrt (np.of_nat amount_of_data_vectors)) in
  get_eigen_system data_normed.

Definition reconstruct_observation (eigen_by_transpose observation_vector : matrix)
  : result matrix :=
  np.matmul observation_vector eigen_by_transpose.

Definition get_residual (observation_vector eigen_vector_matrix : matrix)
  : result matrix :=
  eigen_by_transpose <- np.matmul_T eigen_vector_matrix eigen_vector_matrix ;;
  reconstruct_observation_vector <-
    reconstruct_observation eigen_by_transpose observation_vector ;;
  Ok (np.sub observation_vector reconstruct_observation_vector).

(** Returns the array [residuals] as the call leaves it (it is written in
    place) together with the function's return value. *)
Definition mag_residual_sq (residuals : matrix) (error_map : option matrix)
  : result (matrix * vector) :=
  residuals <-
    match error_map with
    | Some error_map =>
        let error_map := firstn (np.shape0 residuals) error_map in
        assign_nan_where_zero residuals error_map
    | None => Ok residuals
    end ;;
  let mag_residuals_sq := np.nansum_axis1 (np.square residuals) in
  Ok (residuals, mag_residuals_sq).

Definition get_mag_residuals_sq (data eigen_vectors : matrix)
  (error_map : option matrix) : result vector :=
  residuals_transpose <- get_residual data eigen_vectors ;;
  '(_, mag_residuals_squared) <- mag_residual_sq residuals_transpose error_map ;;
  Ok mag_residuals_squared.

Definition initalise_scale_using_residuals_sq (residuals_sq : vector)
  (breakdown_point : float) (amount_of_eigen : nat)
  (robust_function : float -> float -> float) (c_sq : float) : float :=
  let scale_sq := np.nanmean residuals_sq in
  fold_left
    (fun scale_sq _ =>
       let t := np.vdiv_scalar residuals_sq scale_sq in
       let robust_weighting := map (fun t => robust_function t c_sq) t in
       (scale_sq * (np.nanmean robust_weighting / breakdown_point))%float)
    (range 0 amount_of_eigen) scale_sq.

Definition initalise_vqu (residuals_sq : vector) (scale_sq : float)
  (robust_derivative : float -> float -> float) (c_sq : float)
  : float * float * float :=
  let t := np.vdiv_scalar residuals_sq scale_sq in
  let weight1 := map (fun t => robust_derivative t c_sq) t in
  let weight_coefficants_3 := map (fun _ => 1%float) weight1 in
  (np.nanmean weight1,
   np.nanmean (map2 PrimFloat.mul weight1 residuals_sq),
   np.nanmean weight_coefficants_3).

Definition input_for_pca (mean_array eigen_values : vector)
  (eigen_vectors : matrix) (scale_sq : float) (vqu : float * float * float)
  : eigen_system :=
  {| es_U := eigen_vectors; es_m := mean_array; es_W := eigen_values;
     es_vqu := vqu; es_sig2 := scale_sq |}.

(** Plain Python arithmetic on the int [amount_of_spectra] and the number
    [memory]: the division raises when the product is zero (of either
    sign). *)
Definition forget_parameter (amount_of_spectra : nat) (memory : float)
  : result float :=
  let product := (np.of_nat amount_of_spectra * memory)%float in
  if is_zero product then Raise ZeroDivisionError
  else Ok (1 - 1 / product)%float.

Definition initalise_robust_pca_param (data : matrix) (errors : option matrix)
  (amount_of_eigen amount_to_initalise : nat) (breakdown_point : float)
  (robust_function robust_derivative : float -> float -> float) (c_sq : float)
  : result eigen_system :=
  let '(data_centred, mean_initial) := mean_subtracted_data data errors in
  '(eigen_vectors_initial, eigen_values_inital) <-
    initalise_eigensystem data_centred ;;
  let eigen_vectors_initial := map (firstn amount_of_eigen) eigen_vectors_initial in
  let eigen_values_initial := firstn amount_of_eigen eigen_values_inital in
  residuals_sq <-
    get_mag_residuals_sq (firstn amount_to_initalise data_centred)
      eigen_vectors_initial errors ;;
  let scale_sq_initial :=
    initalise_scale_using_residuals_sq residuals_sq breakdown_point
      amount_of_eigen robust_function c_sq in
  let vqu_initial :=
    initalise_vqu residuals_sq scale_sq_initial robust_derivative c_sq in
  Ok (input_for_pca mean_initial eigen_values_initial eigen_vectors_initial
        scale_sq_initial vqu_initial).

Definition randomise_data_order (data : matrix) (errors : py_errors)
  (rnd : np_random) : result (matrix * py_errors * np_random) :=
  let amount_of_spectra := np.shape0 data in
  let random_indicies := seq 0 amount_of_spectra in
  let '(random_indicies, g) := shuffle (bit_generator rnd) random_indicies in
  data_random <- take data random_indicies ;;
  errors_random <-
    match errors with
    | ErrNone => Ok ErrNone
    | ErrNoneList n => if n =? 0 then Raise IndexError else Ok (ErrNoneList n)
    | ErrArray a =>
        _ <- getitem a 0 ;;
        a' <- take a random_indicies ;;
        Ok (ErrArray a')
    end ;;
  Ok (data_random, errors_random, {| bit_generator := g; seed := seed rnd |}).

Definition initialise_tracked_eigen_updates (save_amount : Z)
  (amount_of_eigen : nat) : result tracked_eigen_system :=
  if (save_amount <? 0)%Z then Raise ValueError
  else
    let eigenvalues_interated := np.zeros2 (Z.to_nat save_amount) amount_of_eigen in
    let vk_interated := np.zeros (Z.to_nat save_amount) in
    let scalesq_interated := np.zeros (Z.to_nat save_amount) in
    Ok {| tr_W := eigenvalues_interated; tr_sig2 := scalesq_interated;
          tr_vqu := vk_interated |}.

Definition track_eigensystem_updates (counter : nat)
  (eigen_system_dict : eigen_system) (tracked_eigen_system_dict : tracking)
  (save_amount : Z) (allocated : nat) : result (tracking * nat * nat) :=
  '(tracked_eigen_system_dict, allocated) <-
    (if counter =? 0 then
       let amount_of_eigen := length (es_W eigen_system_dict) in
       t <- initialise_tracked_eigen_updates save_amount amount_of_eigen ;;
       Ok (Buffers t, S allocated)
     else Ok (tracked_eigen_system_dict, allocated)) ;;
  match tracked_eigen_system_dict with
  | EmptyDict => Raise KeyError
  | Buffers t =>
      w <- setrow (tr_W t) counter (es_W eigen_system_dict) ;;
      v <- setitem (tr_vqu t) counter (fst (fst (es_vqu eigen_system_dict))) ;;
      s <- setitem (tr_sig2 t) counter (es_sig2 eigen_system_dict) ;;
      Ok (Buffers {| tr_W := w; tr_sig2 := s; tr_vqu := v |},
          counter + 1, allocated)
  end.

(** [errors[sp]] *)
Definition error_row (errors : py_errors) (sp : nat) : result (option vector) :=
  match errors with
  | ErrNone => Raise (TypeError "'NoneType' object is not subscriptable")
  | ErrArray a => row <- getitem a sp ;; Ok (Some row)
  | ErrNoneList n => if sp <? n then Ok None else Raise IndexError
  end.

Definition pca_function_t : Type :=
  eigen_system -> vector -> float -> option vector -> float -> float ->
  eigen_system.

(** The body of the inner loop of [run_robust_pca]. *)
Definition update_step (pca_function : pca_function_t)
  (forget_param breakdown_point c_sq : float) (save_amount : Z)
  (data : matrix) (errors : py_errors) (st : loop_state) (sp : nat)
  : result loop_state :=
  '(tracked_eigen_system_dict, counter, allocated) <-
    track_eigensystem_updates (ls_counter st) (ls_es st) (ls_tracked st)
      save_amount (ls_allocated st) ;;
  new_spectra <- getitem data sp ;;
  error_array <- error_row errors sp ;;
  Ok {| ls_es := pca_function (ls_es st) new_spectra forget_param error_array
                   breakdown_point c_sq;
        ls_tracked := tracked_eigen_system_dict;
        ls_counter := counter;
        ls_allocated := allocated |}.

(** The loop nest of [run_robust_pca]: [number_of_iterations] passes, the
    first from [start], each followed by a re-randomisation. *)
Fixpoint run_passes (pca_function : pca_function_t)
  (forget_param breakdown_point c_sq : float) (save_amount : Z)
  (amount_of_spectra : nat) (number_of_iterations start : nat)
  (st : loop_state) (data : matrix) (errors : py_errors) (rnd : np_random)
  : result (loop_state * matrix * py_errors * np_random) :=
  match number_of_iterations with
  | 0 => Ok (st, data, errors, rnd)
  | S remaining =>
      st <- for_each
              (update_step pca_function forget_param breakdown_point c_sq
                 save_amount data errors)
              (range start amount_of_spectra) st ;;
      let start := 0 in
      '(data, errors, rnd) <- randomise_data_order data errors rnd ;;
      run_passes pca_function forget_param breakdown_point c_sq save_amount
        amount_of_spectra remaining start st data errors rnd
  end.

Definition as_py_errors (errors : option matrix) : py_errors :=
  match errors with
  | None => ErrNone
  | Some a => ErrArray a
  end.

(** The array behind [errors] ([None] also for the list of [None], which the
    run only creates after the bootstrap). *)
Definition as_error_map (errors : py_errors) : option matrix :=
  match errors with
  | ErrArray a => Some a
  | _ => None
  end.

(** [run_robust_pca] up to its [return]: everything the run has computed. *)
Definition run_robust_pca_state (data : matrix) (errors : option matrix)
  (amount_of_eigen amount_to_initalise number_of_iterations : nat)
  (forget_param : option float) (breakdown_point memory : float)
  (c_sq : float) (random_seed : Z) (rnd : np_random)
  : result (loop_state * matrix * py_errors * np_random) :=
  let '(data, errors) := check_and_make_data_finite data errors in
  let amount_of_spectra := np.shape0 data in
  forget_param <-
    match forget_param with
    | None => forget_parameter amount_of_spectra memory
    | Some alpha => Ok alpha
    end ;;
  let rnd := {| bit_generator := bit_generator rnd; seed := SeedOverwritten 1 |} in
  '(data, errors, rnd) <- randomise_data_order data (as_py_errors errors) rnd ;;
  eigen_system_dict <-
    initalise_robust_pca_param data (as_error_map errors) amount_of_eigen
      amount_to_initalise breakdown_point cauchy_like_function
      derivate_of_cauchy_like_function default_c_sq ;;
  let '(pca_function, errors) :=
    match errors with
    | ErrNone => (iterate_PCA, ErrNoneList amount_of_spectra)
    | _ => (iterate_PCA_with_data_gaps, errors)
    end in
  let counter := 0 in
  let save_amount :=
    (Z.of_nat amount_of_spectra * Z.of_nat number_of_iterations
     - Z.of_nat amount_to_initalise + 1)%Z in
  let tracked_eigen_system_dict := EmptyDict in
  let start := amount_to_initalise in
  run_passes pca_function forget_param breakdown_point c_sq save_amount
    amount_of_spectra number_of_iterations start
    {| ls_es := eigen_system_dict; ls_tracked := tracked_eigen_system_dict;
       ls_counter := counter; ls_allocated := 0 |}
    data errors rnd.

Definition run_robust_pca (data : matrix) (errors : option matrix)
  (amount_of_eigen amount_to_initalise number_of_iterations : nat)
  (forget_param : option float) (breakdown_point memory : float)
  (save_extra_param : bool) (c_sq : float) (random_seed : Z)
  (rnd : np_random)
  : result (eigen_system * option tracking * np_random) :=
  '(st, _, _, rnd) <-
    run_robust_pca_state data errors amount_of_eigen amount_to_initalise
      number_of_iterations forget_param breakdown_point memory c_sq
      random_seed rnd ;;
  if save_extra_param
  then Ok (ls_es st, Some (ls_tracked st), rnd)
  else Ok (ls_es st, None, rnd).


(** ** Reference definitions, in the words of the specification *)

(** A feature is flagged bad when its mask entry is zero. *)
Definition flagged (e : float) : bool := (e =? 0)%float.

(** An observation with its flagged features forced to the undefined value. *)
Definition force_undefined (row errs : vector) : vector :=
  map2 (fun x e => if flagged e then nan else x) row errs.

(** The sum, ignoring undefined entries, of the squares of an observation
    whose flagged features have been forced to undefined. *)
Definition masked_sum_sq_spec (row errs : vector) : float :=
  np.nansum (np.vsquare (force_undefined row errs)).

(** One round of the scale refinement. *)
Definition scale_round_spec (residuals_sq : vector) (breakdown_point : float)
  (weight : float -> float -> float) (shape : float) (scale_sq : float)
  : float :=
  let t := map (fun r => (r / scale_sq)%float) residuals_sq in
  (scale_sq * (np.nanmean (map (fun t => weight t shape) t) / breakdown_point))%float.

(** Scale² is degenerate when it is zero (of either sign) or undefined. *)
Definition degenerate_scale (scale_sq : float) : bool :=
  is_nan scale_sq || is_zero scale_sq.

(** The rows of [a] in the order given by [indices]. *)
Definition reindex (a : matrix) (indices : list nat) : matrix :=
  map (fun j => nth j a []) indices.

(** The permutation the generator draws for [n] observations, and the
    generator after the draw. *)
Definition drawn_permutation (rnd : np_random) (n : nat) : list nat :=
  fst (shuffle (bit_generator rnd) (seq 0 n)).

Definition after_draw (rnd : np_random) (n : nat) : np_random :=
  {| bit_generator := snd (shuffle (bit_generator rnd) (seq 0 n));
     seed := seed rnd |}.

(** One and the same permutation applied to the observations and, when it
    is an array, to the mask. *)
Definition randomise_spec (data : matrix) (errors : py_errors)
  (rnd : np_random) : matrix * py_errors * np_random :=
  let perm := drawn_permutation rnd (length data) in
  (reindex data perm,
   match errors with
   | ErrArray a => ErrArray (reindex a perm)
   | _ => errors
   end,
   after_draw rnd (length data)).

(** [errors] can be indexed by every observation index below [n]. *)
Definition errors_fit (n : nat) (errors : py_errors) : Prop :=
  match errors with
  | ErrNone => True
  | ErrArray a => n <= length a /\ 0 < length a
  | ErrNoneList k => n <= k /\ 0 < k
  end.

(** The observations one pass hands to the updater, with their mask rows:
    the indices [start .. n-1] of the data in its current order. *)
Definition pass_inputs_spec (start n : nat) (data : matrix)
  (errors : py_errors) : list (vector * option vector) :=
  map (fun sp =>
         (nth sp data [],
          match errors with
          | ErrArray a => Some (nth sp a [])
          | _ => None
          end))
      (range start n).

(** Everything the run processes: the first pass from [start], every later
    pass from index 0 of the data re-randomised with a fresh draw. *)
Fixpoint schedule_spec (number_of_passes start n : nat) (data : matrix)
  (errors : py_errors) (rnd : np_random) : list (vector * option vector) :=
  match number_of_passes with
  | 0 => []
  | S remaining =>
      pass_inputs_spec start n data errors ++
      let '(data', errors', rnd') := randomise_spec data errors rnd in
      schedule_spec remaining 0 n data' errors' rnd'
  end.

(** One state transition per processed observation. *)
Definition transition (pca_function : pca_function_t)
  (alpha delta shape : float) (es : eigen_system)
  (input : vector * option vector) : eigen_system :=
  pca_function es (fst input) alpha (snd input) delta shape.

Definition transitions (pca_function : pca_function_t)
  (alpha delta shape : float) (inputs : list (vector * option vector))
  (es : eigen_system) : eigen_system :=
  fold_left (transition pca_function alpha delta shape) inputs es.

(** The state each processed observation meets, before its transition. *)
Fixpoint pre_states (pca_function : pca_function_t)
  (alpha delta shape : float) (inputs : list (vector * option vector))
  (es : eigen_system) : list eigen_system :=
  match inputs with
  | [] => []
  | input :: rest =>
      es :: pre_states pca_function alpha delta shape rest
              (transition pca_function alpha delta shape es input)
  end.

(** The diagnostic buffers of [rows] rows after the given states have been
    recorded: one row per state, in order, zeros below. *)
Definition recorded_spec (rows cols : nat) (states : list eigen_system)
  : tracked_eigen_system :=
  {| tr_W := map es_W states ++ np.zeros2 (rows - length states) cols;
     tr_sig2 := map es_sig2 states ++ np.zeros (rows - length states);
     tr_vqu := map (fun s => fst (fst (es_vqu s))) states
               ++ np.zeros (rows - length states) |}.

(** The loop variables once [inputs] have been processed from [es]. *)
Definition loop_state_after (pca_function : pca_function_t)
  (alpha delta shape : float) (save_amount : Z) (es : eigen_system)
  (inputs : list (vector * option vector)) : loop_state :=
  {| ls_es := transitions pca_function alpha delta shape inputs es;
     ls_tracked :=
       match inputs with
       | [] => EmptyDict
       | _ => Buffers (recorded_spec (Z.to_nat save_amount) (length (es_W es))
                         (pre_states pca_function alpha delta shape inputs es))
       end;
     ls_counter := length inputs;
     ls_allocated := match inputs with [] => 0 | _ => 1 end |}.

(** The number of observations the passes process. *)
Definition update_count (number_of_passes start n : nat) : nat :=
  match number_of_passes with
  | 0 => 0
  | S remaining => (n - start) + remaining * n
  end.

(** Inside the loop [errors] is an array or the list of [None], with an
    entry for every observation. *)
Definition loop_errors (n : nat) (errors : py_errors) : Prop :=
  errors <> ErrNone /\ errors_fit n errors.

(** The updater the run selects and the mask it loops over, by whether a
    mask array is present. *)
Definition selected_updater (errors : py_errors) : pca_function_t :=
  match errors with
  | ErrNone => iterate_PCA
  | _ => iterate_PCA_with_data_gaps
  end.

Definition loop_mask (n : nat) (errors : py_errors) : py_errors :=
  match errors with
  | ErrNone => ErrNoneList n
  | _ => errors
  end.

(** The order of the data (and mask, and the generator) at pass [k]: the
    order at pass 0 re-randomised [k] times, each time with a fresh draw. *)
Definition order_at_pass (k : nat) (order : matrix * py_errors * np_random)
  : matrix * py_errors * np_random :=
  Nat.iter k (fun '(data, errors, rnd) => randomise_spec data errors rnd) order.

(** The passes one after the other: pass 0 from index [start], every later
    pass from index 0. *)
Definition passes_spec (number_of_passes start n : nat)
  (order : matrix * py_errors * np_random) : list (vector * option vector) :=
  concat
    (map (fun k =>
            let '(data, errors, _) := order_at_pass k order in
            pass_inputs_spec (if k =? 0 then start else 0) n data errors)
         (seq 0 number_of_passes)).

(** The diagnostic row of a state: eigenvalues, scale², v-statistic. *)
Definition diagnostic_row (es : eigen_system) : vector * float * float :=
  (es_W es, es_sig2 es, fst (fst (es_vqu es))).

(** Row [c] of the diagnostic buffers. *)
Definition tracked_row (t : tracking) (c : nat) : option (vector * float * float) :=
  match t with
  | EmptyDict => None
  | Buffers b =>
      match nth_error (tr_W b) c, nth_error (tr_sig2 b) c, nth_error (tr_vqu b) c with
      | Some w, Some s, Some v => Some (w, s, v)
      | _, _, _ => None
      end
  end.

(** The number of rows of the diagnostic buffers, if they all agree. *)
Definition tracked_rows (t : tracking) : option nat :=
  match t with
  | EmptyDict => None
  | Buffers b =>
      if (length (tr_W b) =? length (tr_sig2 b))
         && (length (tr_W b) =? length (tr_vqu b))
      then Some (length (tr_W b)) else None
  end.

(** The number of buffer rows the run asks for. *)
Definition save_amount_of (amount_of_spectra number_of_iterations
  amount_to_initalise : nat) : Z :=
  (Z.of_nat amount_of_spectra * Z.of_nat number_of_iterations
   - Z.of_nat amount_to_initalise + 1)%Z.

(** The forgetting factor the run uses: the one it is given or, failing
    that, the one computed from the number of observations. *)
Definition resolved_forget_param (forget_param : option float)
  (amount_of_spectra : nat) (memory : float) : result float :=
  match forget_param with
  | None => forget_parameter amount_of_spectra memory
  | Some alpha => Ok alpha
  end.



(** A float whose sign bit is clear, or NaN: not negative and not -0. *)
Definition sign_clear (x : float) : Prop :=
  match Prim2SF x with
  | S754_zero true | S754_infinity true | S754_finite true _ _ => False
  | _ => True
  end.

(** ** Lists and arrays *)

Lemma map2_length {A B C} (f : A -> B -> C) (l : list A) (l' : list B) :
  length (map2 f l l') = Nat.min (length l) (length l').
Proof.
  revert l'; induction l as [|a l IH]; intros [|b l']; simpl; auto.
Qed.

Lemma map2_nth_error {A B C} (f : A -> B -> C) l l' i a b :
  nth_error l i = Some a -> nth_error l' i = Some b ->
  nth_error (map2 f l l') i = Some (f a b).
Proof.
  revert l' i; induction l as [|x l IH]; intros [|y l'] [|i]; simpl;
    try discriminate; intros Ha Hb.
  - now inversion Ha; inversion Hb.
  - now apply IH.
Qed.

Lemma map2_map_l {A B C D} (f : A -> B -> C) (g : C -> D) l l' :
  map g (map2 f l l') = map2 (fun a b => g (f a b)) l l'.
Proof.
  revert l'; induction l as [|x l IH]; intros [|y l']; simpl; auto.
  now rewrite IH.
Qed.

Lemma same_shape_length a b : same_shape a b = true -> length a = length b.
Proof.
  unfold same_shape; intros H; apply andb_prop in H as [H _].
  now apply Nat.eqb_eq.
Qed.

Lemma same_shape_rows a b i r r' :
  same_shape a b = true ->
  nth_error a i = Some r -> nth_error b i = Some r' -> length r = length r'.
Proof.
  unfold same_shape; intros H Ha Hb; apply andb_prop in H as [_ H].
  rewrite forallb_forall in H.
  apply Nat.eqb_eq.
  apply (H (length r =? length r')).
  apply nth_error_In with (n := i).
  now apply (map2_nth_error (fun r r' : vector => length r =? length r')).
Qed.

Lemma firstn_app_exact {A} (l extra : list A) :
  firstn (length l) (l ++ extra) = l.
Proof.
  rewrite firstn_app, Nat.sub_diag, firstn_all; simpl; apply app_nil_r.
Qed.

(** ** The squared-magnitude residual *)

Lemma assign_nan_where_zero_ok a mask :
  same_shape a mask = true ->
  assign_nan_where_zero a mask = Ok (map2 force_undefined a mask).
Proof.
  intros H; unfold assign_nan_where_zero; now rewrite H.
Qed.

Lemma sum_sq_of_forced a mask :
  np.nansum_axis1 (np.square (map2 force_undefined a mask)) =
  map2 masked_sum_sq_spec a mask.
Proof.
  unfold np.nansum_axis1, np.square.
  now rewrite map_map, map2_map_l.
Qed.

Lemma mag_residual_sq_some residuals error_map extra :
  same_shape residuals error_map = true ->
  mag_residual_sq residuals (Some (error_map ++ extra)) =
  Ok (map2 force_undefined residuals error_map,
      map2 masked_sum_sq_spec residuals error_map).
Proof.
  intros H; unfold mag_residual_sq, np.shape0.
  rewrite (same_shape_length _ _ H), firstn_app_exact.
  rewrite (assign_nan_where_zero_ok _ _ H); simpl.
  now rewrite sum_sq_of_forced.
Qed.

Lemma force_undefined_agree row row' errs :
  length row = length row' ->
  (forall j x x' e, nth_error row j = Some x -> nth_error row' j = Some x' ->
                    nth_error errs j = Some e -> flagged e = false -> x = x') ->
  force_undefined row errs = force_undefined row' errs.
Proof.
  unfold force_undefined.
  revert row' errs; induction row as [|x row IH]; intros [|x' row'] [|e errs];
    simpl; intros Hlen H; try discriminate; auto.
  f_equal.
  - destruct (flagged e) eqn:He; auto.
    exact (H 0 x x' e eq_refl eq_refl eq_refl He).
  - apply IH; [lia|].
    intros j y y' e' Hy Hy' He'; exact (H (S j) y y' e' Hy Hy' He').
Qed.

Lemma force_undefined_none row errs :
  length row <= length errs ->
  (forall e, In e errs -> flagged e = false) ->
  force_undefined row errs = row.
Proof.
  unfold force_undefined.
  revert errs; induction row as [|x row IH]; intros [|e errs]; simpl;
    intros Hlen H; auto; try lia.
  rewrite (H e (or_introl eq_refl)); f_equal.
  apply IH; [lia|]; intros e' He'; apply H; now right.
Qed.

Lemma force_undefined_single row errs j :
  length row = length errs -> j < length row ->
  (forall k e, nth_error errs k = Some e -> flagged e = (k =? j)) ->
  force_undefined row errs = firstn j row ++ nan :: skipn (S j) row.
Proof.
  revert errs j; induction row as [|x row IH]; intros [|e errs] j; simpl;
    intros Hlen Hj H; try discriminate; try lia.
  destruct j as [|j].
  - unfold force_undefined; simpl.
    rewrite (H 0 e eq_refl); simpl; f_equal.
    apply force_undefined_none; [lia|].
    intros e' He'; apply In_nth_error in He' as [k Hk].
    now rewrite (H (S k) e' Hk).
  - unfold force_undefined; simpl.
    rewrite (H 0 e eq_refl); simpl; f_equal.
    apply IH; [lia|lia|].
    intros k e' Hk; exact (H (S k) e' Hk).
Qed.

Lemma force_undefined_nth row errs j x e :
  nth_error row j = Some x -> nth_error errs j = Some e ->
  nth_error (force_undefined row errs) j = Some (if flagged e then nan else x).
Proof.
  intros Hx He; unfold force_undefined.
  now rewrite (map2_nth_error _ _ _ _ _ _ Hx He).
Qed.

Lemma map2_agree {A B C} (f : A -> B -> C) l1 l2 m :
  length l1 = length l2 ->
  (forall i a a' b, nth_error l1 i = Some a -> nth_error l2 i = Some a' ->
                    nth_error m i = Some b -> f a b = f a' b) ->
  map2 f l1 m = map2 f l2 m.
Proof.
  revert l2 m; induction l1 as [|x l1 IH]; intros [|x' l2] [|b m]; simpl;
    intros Hlen H; try discriminate; auto.
  f_equal.
  - exact (H 0 x x' b eq_refl eq_refl eq_refl).
  - apply IH; [lia|].
    intros i a a' b' Ha Ha' Hb; exact (H (S i) a a' b' Ha Ha' Hb).
Qed.

Lemma force_undefined_matrix_agree residuals residuals' error_map :
  same_shape residuals error_map = true ->
  same_shape residuals' error_map = true ->
  (forall i j row row' errs x x' e,
      nth_error residuals i = Some row ->
      nth_error residuals' i = Some row' ->
      nth_error error_map i = Some errs ->
      nth_error row j = Some x -> nth_error row' j = Some x' ->
      nth_error errs j = Some e -> flagged e = false -> x = x') ->
  map2 force_undefined residuals' error_map =
  map2 force_undefined residuals error_map.
Proof.
  intros Hshape Hshape' Hagree.
  apply map2_agree.
  - exact (eq_trans (same_shape_length _ _ Hshape')
                    (eq_sym (same_shape_length _ _ Hshape))).
  - intros i row' row errs Hr' Hr He.
    apply force_undefined_agree.
    + exact (eq_trans (same_shape_rows _ _ _ _ _ Hshape' Hr' He)
                      (eq_sym (same_shape_rows _ _ _ _ _ Hshape Hr He))).
    + intros j x' x e Hx' Hx Hej Hf; symmetry.
      exact (Hagree i j row row' errs x x' e Hr Hr' He Hx Hx' Hej Hf).
Qed.

Lemma masked_sum_sq_agree residuals residuals' error_map :
  map2 force_undefined residuals' error_map =
  map2 force_undefined residuals error_map ->
  map2 masked_sum_sq_spec residuals' error_map =
  map2 masked_sum_sq_spec residuals error_map.
Proof.
  intros H; rewrite <- !sum_sq_of_forced; now rewrite H.
Qed.

Lemma map2_ext {A B C} (f g : A -> B -> C) l l' :
  (forall a b, f a b = g a b) -> map2 f l l' = map2 g l l'.
Proof.
  intros H; revert l'; induction l as [|x l IH]; intros [|y l']; simpl; auto.
  now rewrite H, IH.
Qed.

(** A flagged feature adds zero to the sum, any other its square (zero
    again if that is undefined). *)
Lemma masked_sum_sq_contributions row errs :
  masked_sum_sq_spec row errs =
  np.sum (map2 (fun x e => if flagged e then 0%float
                           else np.nan_to_zero (x * x)%float) row errs).
Proof.
  unfold masked_sum_sq_spec, np.nansum, np.vsquare, force_undefined.
  rewrite !map2_map_l; f_equal.
  apply map2_ext; intros x e; now destruct (flagged e).
Qed.

(** C8.  With a mask whose leading rows have the shape of the residual
    matrix (any further mask rows, [extra], are sliced away and play no
    part), [mag_residual_sq] returns, per observation, the NaN-ignoring sum
    of the squares of the observation with its flagged features forced to
    undefined; the values held at flagged features do not influence the
    result; for a mask row with exactly one zero, at feature [j], the result
    is the NaN-ignoring sum of squares of the observation with entry [j]
    forced to undefined; in that sum a flagged feature counts for zero and
    any other for its square; and without a mask the result is the
    NaN-ignoring sum of squares of every row. *)
Theorem mag_residual_sq_masked (residuals error_map extra : matrix) :
  same_shape residuals error_map = true ->
  (exists after,
      mag_residual_sq residuals (Some (error_map ++ extra)) =
      Ok (after, map2 masked_sum_sq_spec residuals error_map))
  /\ (forall residuals',
        same_shape residuals' error_map = true ->
        (forall i j row row' errs x x' e,
            nth_error residuals i = Some row ->
            nth_error residuals' i = Some row' ->
            nth_error error_map i = Some errs ->
            nth_error row j = Some x -> nth_error row' j = Some x' ->
            nth_error errs j = Some e -> flagged e = false -> x = x') ->
        mag_residual_sq residuals' (Some (error_map ++ extra)) =
        Ok (map2 force_undefined residuals error_map,
            map2 masked_sum_sq_spec residuals error_map))
  /\ (forall i j row errs,
        nth_error residuals i = Some row ->
        nth_error error_map i = Some errs ->
        j < length row ->
        (forall k e, nth_error errs k = Some e -> flagged e = (k =? j)) ->
        nth_error (map2 masked_sum_sq_spec residuals error_map) i =
        Some (np.nansum (np.vsquare (firstn j row ++ nan :: skipn (S j) row))))
  /\ (forall row errs,
        masked_sum_sq_spec row errs =
        np.sum (map2 (fun x e => if flagged e then 0%float
                                 else np.nan_to_zero (x * x)%float) row errs))
  /\ mag_residual_sq residuals None =
     Ok (residuals, map (fun row => np.nansum (np.vsquare row)) residuals).
Proof.
  intros Hshape; repeat split.
  - eexists; now apply mag_residual_sq_some.
  - intros residuals' Hshape' Hagree.
    rewrite (mag_residual_sq_some _ _ _ Hshape').
    pose proof (force_undefined_matrix_agree _ _ _ Hshape Hshape' Hagree) as E.
    now rewrite (masked_sum_sq_agree _ _ _ E), E.
  - intros i j row errs Hr He Hj Hsingle.
    rewrite (map2_nth_error _ _ _ _ _ _ Hr He); f_equal.
    unfold masked_sum_sq_spec.
    rewrite (force_undefined_single row errs j); auto.
    exact (same_shape_rows _ _ _ _ _ Hshape Hr He).
  - apply masked_sum_sq_contributions.
  - unfold mag_residual_sq, np.nansum_axis1, np.square; simpl.
    now rewrite map_map.
Qed.

Lemma same_shape_cons r a r' b :
  same_shape (r :: a) (r' :: b) = (length r =? length r') && same_shape a b.
Proof.
  unfold same_shape; simpl.
  destruct (length a =? length b), (length r =? length r'); simpl; auto.
Qed.

Lemma force_undefined_length row errs :
  length row = length errs -> length (force_undefined row errs) = length errs.
Proof.
  intros H; unfold force_undefined; rewrite map2_length; lia.
Qed.

Lemma same_shape_forced a mask :
  same_shape a mask = true ->
  same_shape (map2 force_undefined a mask) mask = true.
Proof.
  revert mask; induction a as [|r a IH]; intros [|r' mask]; simpl; auto.
  rewrite !same_shape_cons; intros H; apply andb_prop in H as [Hr Ha].
  apply Nat.eqb_eq in Hr.
  rewrite (IH _ Ha), (force_undefined_length _ _ Hr), Nat.eqb_refl.
  reflexivity.
Qed.

Lemma force_undefined_matrix_none a mask :
  same_shape a mask = true ->
  (forall errs e, In errs mask -> In e errs -> flagged e = false) ->
  map2 force_undefined a mask = a.
Proof.
  revert mask; induction a as [|r a IH]; intros [|r' mask]; simpl; auto.
  - intros H; discriminate.
  - rewrite same_shape_cons; intros H Hnone.
    apply andb_prop in H as [Hr Ha]; apply Nat.eqb_eq in Hr.
    f_equal.
    + apply force_undefined_none; [lia|].
      intros e He; apply (Hnone r'); [now left|exact He].
    + apply IH; auto.
      intros errs e Herrs He; apply (Hnone errs); [now right|exact He].
Qed.

(** C10.  With a mask, the array passed as [residuals] is left holding NaN
    at every flagged position and its old value everywhere else; it is left
    as it was when the mask flags nothing, and when no mask is given. *)
Theorem mag_residual_sq_writes_argument (residuals error_map : matrix) :
  same_shape residuals error_map = true ->
  (exists after out,
      mag_residual_sq residuals (Some error_map) = Ok (after, out) /\
      same_shape after error_map = true /\
      (forall i j row errs x e,
          nth_error residuals i = Some row ->
          nth_error error_map i = Some errs ->
          nth_error row j = Some x -> nth_error errs j = Some e ->
          exists row',
            nth_error after i = Some row' /\
            nth_error row' j = Some (if flagged e then nan else x)) /\
      ((forall errs e, In errs error_map -> In e errs -> flagged e = false) ->
       after = residuals))
  /\ (exists out, mag_residual_sq residuals None = Ok (residuals, out)).
Proof.
  intros Hshape; split; [|eexists; reflexivity].
  exists (map2 force_undefined residuals error_map),
         (map2 masked_sum_sq_spec residuals error_map).
  split; [|split; [|split]].
  - rewrite <- (app_nil_r error_map) at 1.
    now apply mag_residual_sq_some.
  - now apply same_shape_forced.
  - intros i j row errs x e Hr He Hx Hej.
    exists (force_undefined row errs); split.
    + now apply map2_nth_error.
    + now apply force_undefined_nth.
  - intros Hnone; now apply force_undefined_matrix_none.
Qed.

(** ** The robust scale estimate *)

Lemma fold_left_const_iter {A B} (f : A -> A) (l : list B) (a : A) :
  fold_left (fun acc _ => f acc) l a = Nat.iter (length l) f a.
Proof.
  revert a; induction l as [|x l IH]; intros a; simpl; auto.
  rewrite IH; clear IH.
  induction (length l) as [|n IHn]; simpl; auto.
  now rewrite IHn.
Qed.

Lemma range_length start stop : length (range start stop) = stop - start.
Proof. unfold range; apply length_seq. Qed.

Lemma nan_to_zero_valid (a : vector) :
  forallb (fun x => negb (is_nan x)) a = true ->
  map np.nan_to_zero a = a /\ np.count_valid a = length a.
Proof.
  unfold np.count_valid.
  induction a as [|x a IH]; simpl; auto.
  intros H; apply andb_prop in H as [Hx Ha].
  destruct (IH Ha) as [E1 E2].
  unfold np.nan_to_zero at 1.
  destruct (is_nan x); [discriminate|]; simpl.
  now rewrite E1, E2.
Qed.

Lemma nanmean_is_mean (a : vector) :
  forallb (fun x => negb (is_nan x)) a = true -> np.nanmean a = np.mean a.
Proof.
  intros H; destruct (nan_to_zero_valid a H) as [E1 E2].
  unfold np.nanmean, np.mean, np.nansum; now rewrite E1, E2.
Qed.

Lemma initalise_scale_as_rounds residuals_sq breakdown_point amount_of_eigen
  robust_function c_sq :
  initalise_scale_using_residuals_sq residuals_sq breakdown_point
    amount_of_eigen robust_function c_sq =
  Nat.iter amount_of_eigen
    (scale_round_spec residuals_sq breakdown_point robust_function c_sq)
    (np.nanmean residuals_sq).
Proof.
  unfold initalise_scale_using_residuals_sq.
  rewrite (fold_left_const_iter
             (scale_round_spec residuals_sq breakdown_point robust_function c_sq)).
  now rewrite range_length, Nat.sub_0_r.
Qed.

(** The bootstrap, with each output written over the part of the data it is
    computed from. *)
Lemma initalise_robust_pca_param_eq data errors amount_of_eigen
  amount_to_initalise breakdown_point robust_function robust_derivative c_sq :
  initalise_robust_pca_param data errors amount_of_eigen amount_to_initalise
    breakdown_point robust_function robust_derivative c_sq =
  let mean_initial := np.nanmean_axis0 data in
  '(eigen_vectors, eigen_values) <-
    initalise_eigensystem (np.sub_rows data mean_initial) ;;
  residuals_sq <-
    get_mag_residuals_sq
      (np.sub_rows (firstn amount_to_initalise data) mean_initial)
      (map (firstn amount_of_eigen) eigen_vectors) errors ;;
  let scale_sq :=
    initalise_scale_using_residuals_sq residuals_sq breakdown_point
      amount_of_eigen robust_function c_sq in
  Ok {| es_U := map (firstn amount_of_eigen) eigen_vectors;
        es_m := mean_initial;
        es_W := firstn amount_of_eigen eigen_values;
        es_vqu := initalise_vqu residuals_sq scale_sq robust_derivative c_sq;
        es_sig2 := scale_sq |}.
Proof.
  unfold initalise_robust_pca_param, mean_subtracted_data, input_for_pca.
  unfold np.sub_rows; now rewrite firstn_map.
Qed.

(** C7.  The scale estimator returns the result of exactly
    [amount_of_eigen] rounds, with no convergence test, each replacing
    scale² by scale² × mean(weight(residual²/scale², shape)) / breakdown
    point, started from the mean of the squared residuals (numpy's
    NaN-ignoring mean, which on residuals free of NaN is the plain mean);
    in the bootstrap the residuals are those of the seed rows and the number
    of rounds is the number [amount_of_eigen] to which eigenvectors and
    eigenvalues are truncated. *)
Theorem scale_estimate_is_K_rounds (residuals_sq : vector)
  (breakdown_point : float) (amount_of_eigen : nat)
  (robust_function : float -> float -> float) (c_sq : float) :
  initalise_scale_using_residuals_sq residuals_sq breakdown_point
    amount_of_eigen robust_function c_sq =
  Nat.iter amount_of_eigen
    (scale_round_spec residuals_sq breakdown_point robust_function c_sq)
    (np.nanmean residuals_sq)
  /\ (forallb (fun x => negb (is_nan x)) residuals_sq = true ->
      np.nanmean residuals_sq = np.mean residuals_sq)
  /\ (forall data errors amount_to_initalise robust_derivative st,
        initalise_robust_pca_param data errors amount_of_eigen
          amount_to_initalise breakdown_point robust_function
          robust_derivative c_sq = Ok st ->
        exists eigen_vectors eigen_values seed_residuals_sq,
          initalise_eigensystem (np.sub_rows data (np.nanmean_axis0 data)) =
          Ok (eigen_vectors, eigen_values) /\
          es_U st = map (firstn amount_of_eigen) eigen_vectors /\
          es_W st = firstn amount_of_eigen eigen_values /\
          get_mag_residuals_sq
            (np.sub_rows (firstn amount_to_initalise data)
               (np.nanmean_axis0 data))
            (es_U st) errors = Ok seed_residuals_sq /\
          es_sig2 st =
          Nat.iter amount_of_eigen
            (scale_round_spec seed_residuals_sq breakdown_point
               robust_function c_sq)
            (np.nanmean seed_residuals_sq)).
Proof.
  split; [apply initalise_scale_as_rounds|].
  split; [apply nanmean_is_mean|].
  intros data errors amount_to_initalise robust_derivative st.
  rewrite initalise_robust_pca_param_eq; cbv zeta.
  destruct (initalise_eigensystem _) as [[V S]|e]; simpl; [|discriminate].
  destruct (get_mag_residuals_sq _ _ _) as [r|e] eqn:Hr; simpl; [|discriminate].
  intros H; inversion H; subst; clear H; simpl.
  exists V, S, r; repeat split; auto.
  apply initalise_scale_as_rounds.
Qed.

(** ** The decomposition step *)

(** C6 (as the code has it).  [do_initial_SVD] has no test of its own for
    non-finite values: what it does follows the library decomposition,
    whatever the data.  When the decomposition raises [LinAlgError] it
    raises the [TypeError] whose message tells the caller to set NaNs and
    infs to finite numbers beforehand and to mark the bad values with zeros
    in the [errors] array; any other exception of the decomposition passes
    through unchanged; and when the decomposition returns it returns the
    transposed eigenvectors and the singular values.  It raises that
    [TypeError] in no other case (short of the decomposition raising that
    very exception), and [get_eigen_system] fails and returns with it. *)
Theorem do_initial_SVD_follows_decomposition (data : matrix) :
  (svd data = Raise LinAlgError ->
   do_initial_SVD data = Raise (TypeError svd_message) /\
   get_eigen_system data = Raise (TypeError svd_message))
  /\ (forall e, e <> LinAlgError -> svd data = Raise e ->
      do_initial_SVD data = Raise e /\ get_eigen_system data = Raise e)
  /\ (forall u s vh, svd data = Ok (u, s, vh) ->
      do_initial_SVD data = Ok (vh, s) /\
      get_eigen_system data = Ok (np.transpose vh, np.vsquare s))
  /\ (do_initial_SVD data = Raise (TypeError svd_message) ->
      svd data = Raise LinAlgError \/
      svd data = Raise (TypeError svd_message))
  /\ do_initial_SVD data <> Raise LinAlgError
  /\ contains "set NaNs and infs to a reasonable finite number before running the PCA"
       svd_message = true
  /\ contains "setting the `errors` array to the value `0` at these locations to indicate these are masked values"
       svd_message = true.
Proof.
  unfold get_eigen_system, do_initial_SVD.
  split; [intros E; now rewrite E|].
  split.
  { intros e He E; rewrite E.
    destruct e; try (split; reflexivity); congruence. }
  split; [intros u s vh E; now rewrite E|].
  split; [|split; [|split; reflexivity]].
  - destruct (svd data) as [[[u s] vh]|e]; [discriminate|].
    destruct e; intros H;
      first [discriminate H | now left | right; f_equal; congruence].
  - destruct (svd data) as [[[u s] vh]|e]; [discriminate|].
    destruct e; discriminate.
Qed.

(** ** What the bootstrap reads *)

(** C1 (as the code has it).  The initial mean is the NaN-ignoring column
    mean of the whole dataset and the initial eigen-basis is the
    decomposition of the whole centred dataset, truncated to
    [amount_of_eigen]; only the squared residuals, and through them the
    scale estimate and the running-statistic triple, are taken over the
    first [amount_to_initalise] rows, centred with the whole-data mean and
    projected on the whole-data eigenvectors.  Hence any dataset with the
    same seed rows, the same whole-data mean and the same whole-data
    eigen-system bootstraps to the same state. *)
Theorem bootstrap_reads_whole_data (data : matrix) (errors : option matrix)
  (amount_of_eigen amount_to_initalise : nat) (breakdown_point : float)
  (robust_function robust_derivative : float -> float -> float)
  (c_sq : float) (st : eigen_system) :
  initalise_robust_pca_param data errors amount_of_eigen amount_to_initalise
    breakdown_point robust_function robust_derivative c_sq = Ok st ->
  es_m st = np.nanmean_axis0 data
  /\ (exists eigen_vectors eigen_values,
        initalise_eigensystem (np.sub_rows data (np.nanmean_axis0 data)) =
        Ok (eigen_vectors, eigen_values) /\
        es_U st = map (firstn amount_of_eigen) eigen_vectors /\
        es_W st = firstn amount_of_eigen eigen_values)
  /\ (exists seed_residuals_sq,
        get_mag_residuals_sq
          (np.sub_rows (firstn amount_to_initalise data) (es_m st))
          (es_U st) errors = Ok seed_residuals_sq /\
        es_sig2 st =
        initalise_scale_using_residuals_sq seed_residuals_sq breakdown_point
          amount_of_eigen robust_function c_sq /\
        es_vqu st =
        initalise_vqu seed_residuals_sq (es_sig2 st) robust_derivative c_sq)
  /\ (forall data',
        firstn amount_to_initalise data' = firstn amount_to_initalise data ->
        np.nanmean_axis0 data' = np.nanmean_axis0 data ->
        initalise_eigensystem (np.sub_rows data' (np.nanmean_axis0 data')) =
        initalise_eigensystem (np.sub_rows data (np.nanmean_axis0 data)) ->
        initalise_robust_pca_param data' errors amount_of_eigen
          amount_to_initalise breakdown_point robust_function
          robust_derivative c_sq = Ok st).
Proof.
  intros Hst.
  assert (Hsame : forall data',
             firstn amount_to_initalise data' = firstn amount_to_initalise data ->
             np.nanmean_axis0 data' = np.nanmean_axis0 data ->
             initalise_eigensystem (np.sub_rows data' (np.nanmean_axis0 data')) =
             initalise_eigensystem (np.sub_rows data (np.nanmean_axis0 data)) ->
             initalise_robust_pca_param data' errors amount_of_eigen
               amount_to_initalise breakdown_point robust_function
               robust_derivative c_sq = Ok st).
  { intros data' Hseed Hmean Heig.
    rewrite <- Hst, !initalise_robust_pca_param_eq; cbv zeta.
    now rewrite Heig, Hseed, Hmean. }
  revert Hst; rewrite initalise_robust_pca_param_eq; cbv zeta.
  destruct (initalise_eigensystem _) as [[V S]|e]; simpl; [|discriminate].
  destruct (get_mag_residuals_sq _ _ _) as [r|e] eqn:Hr; simpl; [|discriminate].
  intros H; inversion H; subst; clear H; simpl.
  split; [reflexivity|].
  split; [exists V, S; auto|].
  split; [exists r; auto|].
  exact Hsame.
Qed.

(** ** A degenerate scale *)

Lemma SFeqb_refl_finite s m e : SFeqb (S754_finite s m e) (S754_finite s m e) = true.
Proof.
  unfold SFeqb, SFcompare.
  rewrite Z.compare_refl, Pos.compare_cont_refl.
  now destruct s.
Qed.

Lemma is_nan_Prim2SF x : is_nan x = true <-> Prim2SF x = S754_nan.
Proof.
  unfold is_nan; rewrite eqb_spec.
  destruct (Prim2SF x) as [s| s| |s m e]; try (split; [reflexivity|reflexivity]).
  - destruct s; split; discriminate.
  - destruct s; split; discriminate.
  - rewrite SFeqb_refl_finite; split; discriminate.
Qed.

Lemma is_zero_Prim2SF x : is_zero x = true <-> exists s, Prim2SF x = S754_zero s.
Proof.
  unfold is_zero; rewrite eqb_spec.
  replace (Prim2SF zero) with (S754_zero false) by reflexivity.
  destruct (Prim2SF x) as [s| s| |s m e].
  - split; [eauto|reflexivity].
  - destruct s; split; try discriminate; intros [s' H]; discriminate.
  - split; [discriminate|intros [s' H]; discriminate].
  - destruct s; split; try discriminate; intros [s' H]; discriminate.
Qed.

Lemma degenerate_scale_mul s y :
  degenerate_scale s = true -> degenerate_scale (s * y) = true.
Proof.
  unfold degenerate_scale; intros H; apply orb_true_iff in H.
  apply orb_true_iff.
  destruct H as [H|H].
  - left; apply is_nan_Prim2SF in H; apply is_nan_Prim2SF.
    now rewrite mul_spec, H.
  - apply is_zero_Prim2SF in H as [b H].
    rewrite is_nan_Prim2SF, is_zero_Prim2SF, mul_spec, H.
    unfold SF64mul, SFmul.
    destruct (Prim2SF y) as [s'| s'| |s' m e]; eauto.
Qed.

Lemma degenerate_scale_rounds residuals_sq breakdown_point robust_function
  c_sq s n :
  degenerate_scale s = true ->
  degenerate_scale
    (Nat.iter n
       (scale_round_spec residuals_sq breakdown_point robust_function c_sq) s)
  = true.
Proof.
  intros H; induction n as [|n IH]; simpl; auto.
  unfold scale_round_spec at 1; now apply degenerate_scale_mul.
Qed.

Lemma iter_add {A} (f : A -> A) (a : A) n k :
  Nat.iter (n + k) f a = Nat.iter n f (Nat.iter k f a).
Proof. induction n as [|n IH]; simpl; auto; now rewrite IH. Qed.

(** C5 (as the code has it).  The bootstrap has no degenerate-scale check.
    When the decomposition and the seed residuals are computed and scale²
    is zero or undefined after some round [k] of the refinement, the
    bootstrap still returns a state, no exception is raised, the scale² of
    that state is zero or undefined, and the running statistics are
    computed with it as the divisor of t = residual²/scale². *)
Theorem degenerate_scale_is_returned (data : matrix) (errors : option matrix)
  (amount_of_eigen amount_to_initalise : nat) (breakdown_point : float)
  (robust_function robust_derivative : float -> float -> float)
  (c_sq : float) (eigen_vectors : matrix) (eigen_values residuals_sq : vector)
  (k : nat) :
  initalise_eigensystem (np.sub_rows data (np.nanmean_axis0 data)) =
  Ok (eigen_vectors, eigen_values) ->
  get_mag_residuals_sq
    (np.sub_rows (firstn amount_to_initalise data) (np.nanmean_axis0 data))
    (map (firstn amount_of_eigen) eigen_vectors) errors = Ok residuals_sq ->
  k <= amount_of_eigen ->
  degenerate_scale
    (Nat.iter k
       (scale_round_spec residuals_sq breakdown_point robust_function c_sq)
       (np.nanmean residuals_sq)) = true ->
  exists st,
    initalise_robust_pca_param data errors amount_of_eigen amount_to_initalise
      breakdown_point robust_function robust_derivative c_sq = Ok st /\
    degenerate_scale (es_sig2 st) = true /\
    es_sig2 st =
    initalise_scale_using_residuals_sq residuals_sq breakdown_point
      amount_of_eigen robust_function c_sq /\
    es_vqu st =
    initalise_vqu residuals_sq (es_sig2 st) robust_derivative c_sq.
Proof.
  intros Heig Hres Hk Hdeg.
  rewrite initalise_robust_pca_param_eq; cbv zeta.
  rewrite Heig; simpl; rewrite Hres; simpl.
  eexists; split; [reflexivity|]; simpl.
  split; [|split; reflexivity].
  rewrite initalise_scale_as_rounds.
  replace amount_of_eigen with ((amount_of_eigen - k) + k) by lia.
  rewrite iter_add.
  now apply degenerate_scale_rounds.
Qed.

(** ** The data-order randomizer *)

(** What [np.random.shuffle] guarantees: the array is rearranged, nothing
    is lost or repeated. *)
Hypothesis shuffle_permutes : forall g l, Permutation l (fst (shuffle g l)).

Lemma shuffled_indices_in_range g n :
  Forall (fun j => j < n) (fst (shuffle g (seq 0 n))).
Proof.
  apply Forall_forall; intros j Hj.
  apply (Permutation_in _ (Permutation_sym (shuffle_permutes g (seq 0 n)))) in Hj.
  apply in_seq in Hj; lia.
Qed.

Lemma shuffled_indices_length g n : length (fst (shuffle g (seq 0 n))) = n.
Proof.
  rewrite <- (Permutation_length (shuffle_permutes g (seq 0 n))).
  apply length_seq.
Qed.

Lemma take_reindex (a : matrix) (indices : list nat) :
  Forall (fun j => j < length a) indices ->
  take a indices = Ok (reindex a indices).
Proof.
  induction indices as [|i rest IH]; intros H; [reflexivity|].
  inversion H as [|? ? Hi Hrest]; subst; simpl.
  unfold getitem; rewrite (nth_error_nth' a [] Hi); simpl.
  now rewrite (IH Hrest).
Qed.

Lemma reindex_length a indices : length (reindex a indices) = length indices.
Proof. unfold reindex; apply length_map. Qed.

Lemma reindex_nth_error a indices i j :
  nth_error indices i = Some j -> j < length a ->
  nth_error (reindex a indices) i = nth_error a j.
Proof.
  intros Hi Hj; unfold reindex.
  rewrite nth_error_map, Hi; simpl.
  now rewrite (nth_error_nth' a [] Hj).
Qed.

Lemma randomise_data_order_ok data errors rnd :
  errors_fit (length data) errors ->
  randomise_data_order data errors rnd = Ok (randomise_spec data errors rnd).
Proof.
  intros Hfit; unfold randomise_data_order, randomise_spec, np.shape0.
  unfold drawn_permutation, after_draw.
  pose proof (shuffled_indices_in_range (bit_generator rnd) (length data)) as Hr.
  destruct (shuffle (bit_generator rnd) (seq 0 (length data))) as [perm g].
  simpl in *.
  rewrite (take_reindex data perm Hr); simpl.
  destruct errors as [|a|k]; simpl in *; auto.
  - destruct Hfit as [Hn Hpos].
    destruct a as [|r a]; [simpl in Hpos; lia|]; simpl.
    rewrite take_reindex; [reflexivity|].
    eapply Forall_impl; [|exact Hr]; simpl; intros; simpl in *; lia.
  - destruct Hfit as [Hn Hpos].
    destruct k; [lia|reflexivity].
Qed.

Lemma drawn_permutation_pairs rnd n i :
  i < n ->
  exists j, j < n /\ nth_error (drawn_permutation rnd n) i = Some j.
Proof.
  intros Hi; unfold drawn_permutation.
  pose proof (shuffled_indices_in_range (bit_generator rnd) n) as Hr.
  pose proof (shuffled_indices_length (bit_generator rnd) n) as Hl.
  destruct (nth_error (fst (shuffle (bit_generator rnd) (seq 0 n))) i)
    as [j|] eqn:Ej; [|apply nth_error_None in Ej; lia].
  exists j; split; auto.
  rewrite Forall_forall in Hr; apply Hr.
  eapply nth_error_In; eauto.
Qed.

(** C9.  Given that the library shuffle rearranges the index array, the
    randomizer applies one permutation of [0, N) to the observations and,
    when a mask array is present, to the mask: every output index [i] takes
    both its observation and its mask row from the same original index [j];
    without a mask (or with the list of [None] the run uses instead) the
    mask output is the input unchanged. *)
Theorem randomise_data_order_pairs (data : matrix) (rnd : np_random) :
  Permutation (seq 0 (length data)) (drawn_permutation rnd (length data))
  /\ (forall mask,
        length data <= length mask -> 0 < length mask ->
        exists data' mask' rnd',
          randomise_data_order data (ErrArray mask) rnd =
          Ok (data', ErrArray mask', rnd') /\
          length data' = length data /\ length mask' = length data /\
          forall i, i < length data ->
            exists j, j < length data /\
              nth_error (drawn_permutation rnd (length data)) i = Some j /\
              nth_error data' i = nth_error data j /\
              nth_error mask' i = nth_error mask j)
  /\ (exists data' rnd',
        randomise_data_order data ErrNone rnd = Ok (data', ErrNone, rnd') /\
        length data' = length data /\
        forall i, i < length data ->
          exists j, j < length data /\
            nth_error (drawn_permutation rnd (length data)) i = Some j /\
            nth_error data' i = nth_error data j)
  /\ (forall k,
        length data <= k -> 0 < k ->
        exists data' rnd',
          randomise_data_order data (ErrNoneList k) rnd =
          Ok (data', ErrNoneList k, rnd')).
Proof.
  split; [apply shuffle_permutes|].
  split; [|split].
  - intros mask Hlen Hpos.
    eexists _, _, _; split.
    + rewrite randomise_data_order_ok by (simpl; auto); reflexivity.
    + rewrite !reindex_length; unfold drawn_permutation.
      rewrite shuffled_indices_length; repeat split.
      intros i Hi; destruct (drawn_permutation_pairs rnd _ i Hi) as (j & Hj & Ej).
      exists j; repeat split; auto; apply reindex_nth_error; auto; lia.
  - eexists _, _; split.
    + rewrite randomise_data_order_ok by (simpl; auto); reflexivity.
    + rewrite reindex_length; unfold drawn_permutation.
      rewrite shuffled_indices_length; split; auto.
      intros i Hi; destruct (drawn_permutation_pairs rnd _ i Hi) as (j & Hj & Ej).
      exists j; repeat split; auto; apply reindex_nth_error; auto.
  - intros k Hk Hpos; eexists _, _.
    rewrite randomise_data_order_ok by (simpl; auto); reflexivity.
Qed.

(** ** The pass loop *)

Lemma setitem_at {T} (done : list T) (z v : T) (n i : nat) :
  i = length done -> i < n ->
  setitem (done ++ repeat z (n - i)) i v =
  Ok ((done ++ [v]) ++ repeat z (n - S i)).
Proof.
  intros -> Hlt; unfold setitem.
  rewrite length_app, repeat_length.
  replace (length done <? length done + (n - length done)) with true
    by (symmetry; apply Nat.ltb_lt; lia).
  f_equal.
  rewrite firstn_app, Nat.sub_diag, firstn_all, firstn_O, app_nil_r.
  rewrite skipn_app, (skipn_all2 done) by lia.
  replace (S (length done) - length done) with 1 by lia.
  rewrite <- app_assoc; f_equal.
  replace (n - length done) with (S (n - S (length done))) by lia.
  reflexivity.
Qed.

Lemma setrow_at (done : matrix) (w : vector) (n cols i : nat) :
  i = length done -> i < n -> length w = cols ->
  setrow (done ++ np.zeros2 (n - i) cols) i w =
  Ok ((done ++ [w]) ++ np.zeros2 (n - S i) cols).
Proof.
  intros Hi Hlt Hw; unfold setrow, np.zeros2.
  replace (nth_error (done ++ repeat (np.zeros cols) (n - i)) i)
    with (Some (np.zeros cols)).
  - unfold np.zeros at 1; rewrite repeat_length, Hw, Nat.eqb_refl.
    now apply setitem_at.
  - subst i; rewrite nth_error_app2, Nat.sub_diag by lia.
    now replace (n - length done) with (S (n - length done - 1)) by lia.
Qed.

Lemma setitem_length {T} (a a' : list T) i v :
  setitem a i v = Ok a' -> length a' = length a.
Proof.
  unfold setitem; destruct (i <? length a) eqn:Hi; [|discriminate].
  apply Nat.ltb_lt in Hi; intros H.
  assert (E : a' = firstn i a ++ v :: skipn (S i) a) by congruence.
  rewrite E, length_app, length_firstn.
  change (length (v :: skipn (S i) a)) with (S (length (skipn (S i) a))).
  rewrite length_skipn; lia.
Qed.

Lemma setrow_length buffer buffer' i w :
  setrow buffer i w = Ok buffer' -> length buffer' = length buffer.
Proof.
  unfold setrow; destruct (nth_error buffer i) as [old|]; [|discriminate].
  destruct (length w =? length old); [apply setitem_length|].
  destruct (length w =? 1); [apply setitem_length|discriminate].
Qed.

(** After the first step the tracking neither allocates nor changes the
    number of rows of the buffers. *)
Lemma track_eigensystem_updates_keeps_buffers counter es t save_amount
  allocated t' counter' allocated' :
  counter <> 0 ->
  track_eigensystem_updates counter es t save_amount allocated =
  Ok (t', counter', allocated') ->
  allocated' = allocated /\ counter' = counter + 1 /\
  tracked_rows t' = tracked_rows t.
Proof.
  intros Hc; unfold track_eigensystem_updates.
  destruct (counter =? 0) eqn:E; [apply Nat.eqb_eq in E; contradiction|].
  cbn [bind]; destruct t as [|b]; [discriminate|].
  destruct (setrow _ _ _) as [w|] eqn:Hw; [|discriminate]; cbn [bind].
  destruct (setitem (tr_vqu b) _ _) as [v|] eqn:Hv; [|discriminate]; cbn [bind].
  destruct (setitem (tr_sig2 b) _ _) as [sg|] eqn:Hs; [|discriminate]; cbn [bind].
  intros [= <- <- <-]; repeat split.
  unfold tracked_rows; cbn [tr_W tr_sig2 tr_vqu].
  now rewrite (setrow_length _ _ _ _ Hw), (setitem_length _ _ _ _ Hv),
    (setitem_length _ _ _ _ Hs).
Qed.

Lemma update_step_keeps_buffers pca_function alpha delta shape save_amount
  (data : matrix) errors st sp st' :
  ls_counter st <> 0 ->
  update_step pca_function alpha delta shape save_amount data errors st sp =
  Ok st' ->
  ls_allocated st' = ls_allocated st /\
  ls_counter st' = ls_counter st + 1 /\
  tracked_rows (ls_tracked st') = tracked_rows (ls_tracked st).
Proof.
  intros Hc; unfold update_step.
  destruct (track_eigensystem_updates _ _ _ _ _) as [[[t' c'] a']|] eqn:Ht;
    [|discriminate].
  cbn [bind].
  destruct (getitem data sp); [|discriminate]; cbn [bind].
  destruct (error_row errors sp); [|discriminate]; cbn [bind].
  intros [= <-]; cbn [ls_allocated ls_counter ls_tracked].
  exact (track_eigensystem_updates_keeps_buffers _ _ _ _ _ _ _ _ Hc Ht).
Qed.

Section PassLoop.

Variable pca_function : pca_function_t.
Variables alpha delta shape : float.
Variable save_amount : Z.
Variable es0 : eigen_system.

(** The updater keeps the number of eigenvalues. *)
Hypothesis pca_keeps_W : forall es x a e d c,
  length (es_W (pca_function es x a e d c)) = length (es_W es).

Lemma transitions_snoc inputs input es :
  transitions pca_function alpha delta shape (inputs ++ [input]) es =
  transition pca_function alpha delta shape
    (transitions pca_function alpha delta shape inputs es) input.
Proof. unfold transitions; now rewrite fold_left_app. Qed.

Lemma pre_states_snoc inputs input es :
  pre_states pca_function alpha delta shape (inputs ++ [input]) es =
  pre_states pca_function alpha delta shape inputs es
  ++ [transitions pca_function alpha delta shape inputs es].
Proof.
  revert es; induction inputs as [|i inputs IH]; intros es; simpl; auto.
  now rewrite IH.
Qed.

Lemma pre_states_length inputs es :
  length (pre_states pca_function alpha delta shape inputs es) = length inputs.
Proof.
  revert es; induction inputs as [|i inputs IH]; intros es; simpl; auto.
Qed.

Lemma transitions_keep_W inputs es :
  length (es_W (transitions pca_function alpha delta shape inputs es)) =
  length (es_W es).
Proof.
  revert es; induction inputs as [|i inputs IH]; intros es; simpl; auto.
  unfold transitions in *; simpl; rewrite IH.
  unfold transition; apply pca_keeps_W.
Qed.

Lemma track_eigensystem_updates_next done :
  (Z.of_nat (length done) < save_amount)%Z ->
  let st := loop_state_after pca_function alpha delta shape save_amount es0 done in
  track_eigensystem_updates (ls_counter st) (ls_es st) (ls_tracked st)
    save_amount (ls_allocated st) =
  Ok (Buffers
        (recorded_spec (Z.to_nat save_amount) (length (es_W es0))
           (pre_states pca_function alpha delta shape done es0
            ++ [transitions pca_function alpha delta shape done es0])),
      length done + 1, 1).
Proof.
  intros Hlt st.
  assert (Hbuffers :
    (if ls_counter st =? 0 then
       t <- initialise_tracked_eigen_updates save_amount
              (length (es_W (ls_es st))) ;;
       Ok (Buffers t, S (ls_allocated st))
     else Ok (ls_tracked st, ls_allocated st)) =
    Ok (Buffers (recorded_spec (Z.to_nat save_amount) (length (es_W es0))
                   (pre_states pca_function alpha delta shape done es0)), 1)).
  { subst st; destruct done as [|i done]; simpl; [|reflexivity].
    unfold initialise_tracked_eigen_updates.
    replace (save_amount <? 0)%Z with false by (symmetry; apply Z.ltb_ge; lia).
    unfold recorded_spec; simpl; now rewrite Nat.sub_0_r. }
  unfold track_eigensystem_updates; rewrite Hbuffers; clear Hbuffers.
  cbn [bind]; unfold recorded_spec at 1 2 3; cbn [tr_W tr_vqu tr_sig2].
  set (pre := pre_states pca_function alpha delta shape done es0).
  assert (Hpre : length pre = length done) by apply pre_states_length.
  assert (Hrows : length done < Z.to_nat save_amount) by lia.
  subst st; cbn [ls_counter ls_es loop_state_after].
  rewrite Hpre.
  rewrite setrow_at;
    [|now rewrite length_map|exact Hrows|apply transitions_keep_W].
  cbn [bind]; unfold np.zeros.
  rewrite setitem_at; [|now rewrite length_map|exact Hrows].
  cbn [bind].
  rewrite setitem_at; [|now rewrite length_map|exact Hrows].
  cbn [bind].
  unfold recorded_spec, np.zeros.
  rewrite !map_app, !length_app, Hpre; simpl.
  now replace (length done + 1) with (S (length done)) by lia.
Qed.

Lemma update_step_next done (data : matrix) errors sp x e :
  (Z.of_nat (length done) < save_amount)%Z ->
  getitem data sp = Ok x -> error_row errors sp = Ok e ->
  update_step pca_function alpha delta shape save_amount data errors
    (loop_state_after pca_function alpha delta shape save_amount es0 done) sp =
  Ok (loop_state_after pca_function alpha delta shape save_amount es0
        (done ++ [(x, e)])).
Proof.
  intros Hlt Hx He; unfold update_step.
  rewrite (track_eigensystem_updates_next done Hlt); cbn [bind].
  rewrite Hx, He; cbn [bind]; f_equal.
  unfold loop_state_after.
  rewrite transitions_snoc, pre_states_snoc, length_app; simpl.
  destruct done; reflexivity.
Qed.

Lemma loop_inputs_indexable n (data : matrix) errors sp :
  length data = n -> loop_errors n errors -> sp < n ->
  getitem data sp = Ok (nth sp data []) /\
  error_row errors sp =
  Ok match errors with
     | ErrArray a => Some (nth sp a [])
     | _ => None
     end.
Proof.
  intros Hn [Hsome Hfit] Hsp; split.
  - unfold getitem; rewrite (nth_error_nth' data []); auto; lia.
  - destruct errors as [|a|k]; simpl in *; [congruence| |].
    + unfold getitem; rewrite (nth_error_nth' a []); auto; lia.
    + replace (sp <? k) with true; auto.
      symmetry; apply Nat.ltb_lt; lia.
Qed.

Lemma for_each_update_step n (data : matrix) errors indices done :
  length data = n -> loop_errors n errors ->
  Forall (fun sp => sp < n) indices ->
  (Z.of_nat (length done + length indices) <= save_amount)%Z ->
  for_each
    (update_step pca_function alpha delta shape save_amount data errors)
    indices
    (loop_state_after pca_function alpha delta shape save_amount es0 done) =
  Ok (loop_state_after pca_function alpha delta shape save_amount es0
        (done ++
         map (fun sp =>
                (nth sp data [],
                 match errors with
                 | ErrArray a => Some (nth sp a [])
                 | _ => None
                 end)) indices)).
Proof.
  intros Hn Herr Hidx; revert done.
  induction Hidx as [|sp indices Hsp Hrest IH]; intros done Hroom; simpl.
  - now rewrite app_nil_r.
  - destruct (loop_inputs_indexable n data errors sp Hn Herr Hsp) as [Hx He].
    rewrite (update_step_next done data errors sp _ _
               ltac:(simpl in Hroom; lia) Hx He).
    cbn [bind]; rewrite IH.
    + now rewrite <- app_assoc.
    + rewrite length_app; simpl in *; lia.
Qed.

Lemma pass_inputs_length start n data errors :
  length (pass_inputs_spec start n data errors) = n - start.
Proof. unfold pass_inputs_spec; now rewrite length_map, range_length. Qed.

Lemma schedule_length number_of_passes start n data errors rnd :
  length (schedule_spec number_of_passes start n data errors rnd) =
  update_count number_of_passes start n.
Proof.
  revert start data errors rnd.
  induction number_of_passes as [|p IH]; intros start data errors rnd; auto.
  simpl; rewrite length_app, pass_inputs_length, IH.
  destruct p; simpl; lia.
Qed.

Lemma randomise_spec_keeps_fit n data errors rnd :
  length data = n -> 0 < n -> loop_errors n errors ->
  length (fst (fst (randomise_spec data errors rnd))) = n /\
  loop_errors n (snd (fst (randomise_spec data errors rnd))).
Proof.
  intros Hn Hpos [Hsome Hfit]; unfold randomise_spec; cbn [fst snd].
  assert (Hperm : length (drawn_permutation rnd (length data)) = n).
  { unfold drawn_permutation; now rewrite shuffled_indices_length. }
  rewrite reindex_length; split; auto.
  destruct errors as [|a|k]; [congruence| |].
  - split; [discriminate|].
    unfold errors_fit; rewrite reindex_length, Hperm; lia.
  - split; [discriminate|exact Hfit].
Qed.

Lemma run_passes_schedule number_of_passes :
  forall n start done data errors rnd,
    length data = n -> 0 < n -> loop_errors n errors ->
    (Z.of_nat (length done + update_count number_of_passes start n)
     <= save_amount)%Z ->
    exists data' errors' rnd',
      run_passes pca_function alpha delta shape save_amount n
        number_of_passes start
        (loop_state_after pca_function alpha delta shape save_amount es0 done)
        data errors rnd =
      Ok (loop_state_after pca_function alpha delta shape save_amount es0
            (done ++ schedule_spec number_of_passes start n data errors rnd),
          data', errors', rnd').
Proof.
  induction number_of_passes as [|p IH];
    intros n start done data errors rnd Hn Hpos Herr Hroom.
  - simpl; rewrite app_nil_r; eauto.
  - cbn [run_passes schedule_spec].
    assert (Hcount : update_count (S p) start n =
                     (n - start) + update_count p 0 n).
    { destruct p; simpl; lia. }
    rewrite (for_each_update_step n data errors (range start n) done); auto.
    + cbn [bind].
      rewrite randomise_data_order_ok by (rewrite Hn; apply Herr).
      cbn [bind].
      destruct (randomise_spec_keeps_fit n data errors rnd Hn Hpos Herr)
        as [Hn' Herr'].
      destruct (randomise_spec data errors rnd) as [[data1 errors1] rnd1].
      simpl in Hn', Herr'.
      destruct (IH n 0
                  (done ++ map (fun sp =>
                     (nth sp data [],
                      match errors with
                      | ErrArray a => Some (nth sp a [])
                      | _ => None
                      end)) (range start n))
                  data1 errors1 rnd1 Hn' Hpos Herr')
        as (data' & errors' & rnd' & E).
      * rewrite length_app, length_map, range_length; lia.
      * exists data', errors', rnd'; rewrite E.
        unfold pass_inputs_spec; now rewrite <- app_assoc.
    + unfold range; apply Forall_forall; intros sp Hsp.
      apply in_seq in Hsp; lia.
    + rewrite range_length; lia.
Qed.

End PassLoop.

(** ** The driver *)

Lemma order_at_pass_succ k order :
  order_at_pass (S k) order =
  order_at_pass k
    (let '(data, errors, rnd) := order in randomise_spec data errors rnd).
Proof.
  unfold order_at_pass; induction k as [|k IH]; [reflexivity|].
  change (Nat.iter (S (S k)) ?f ?x) with (f (Nat.iter (S k) f x)).
  now rewrite IH.
Qed.

Lemma schedule_spec_passes number_of_passes start n data errors rnd :
  schedule_spec number_of_passes start n data errors rnd =
  passes_spec number_of_passes start n (data, errors, rnd).
Proof.
  revert start data errors rnd.
  induction number_of_passes as [|p IH]; intros start data errors rnd;
    [reflexivity|].
  unfold passes_spec; cbn [schedule_spec seq map concat].
  f_equal.
  destruct (randomise_spec data errors rnd) as [[data' errors'] rnd'] eqn:E.
  rewrite IH; unfold passes_spec; f_equal.
  rewrite <- seq_shift, map_map.
  apply map_ext; intros k.
  rewrite order_at_pass_succ, E.
  now destruct k.
Qed.



Lemma recorded_spec_rows rows cols states :
  length states <= rows ->
  tracked_rows (Buffers (recorded_spec rows cols states)) = Some rows.
Proof.
  intros Hle; unfold tracked_rows, recorded_spec, np.zeros2, np.zeros.
  cbn [tr_W tr_sig2 tr_vqu].
  rewrite !length_app, !length_map, !repeat_length, !Nat.eqb_refl; simpl.
  f_equal; lia.
Qed.

Lemma run_passes_no_steps pca_function alpha delta shape save_amount
  number_of_passes n start st data errors rnd :
  number_of_passes <= 1 -> n <= start ->
  errors_fit (length data) errors ->
  run_passes pca_function alpha delta shape save_amount n number_of_passes
    start st data errors rnd =
  Ok (st, fst (fst (order_at_pass number_of_passes (data, errors, rnd))),
      snd (fst (order_at_pass number_of_passes (data, errors, rnd))),
      snd (order_at_pass number_of_passes (data, errors, rnd))).
Proof.
  intros Hp Hstart Hfit.
  destruct number_of_passes as [|[|p]]; [reflexivity| |lia].
  cbn [run_passes]; unfold range.
  replace (n - start) with 0 by lia; cbn [seq for_each bind].
  rewrite randomise_data_order_ok by exact Hfit.
  cbn [bind].
  change (order_at_pass 1 (data, errors, rnd))
    with (randomise_spec data errors rnd).
  now destruct (randomise_spec data errors rnd) as [[data1 errors1] rnd1].
Qed.

(** ** Observations stay with their mask rows *)



Section Driver.

Variables (data : matrix) (errors : option matrix).
Variables (amount_of_eigen amount_to_initalise number_of_iterations : nat).
Variables (forget_param : option float) (breakdown_point memory c_sq : float).
Variables (random_seed : Z) (rnd : np_random).

(** The sanitised data and mask, the forgetting factor the run resolves,
    the order after the first randomisation, and the bootstrapped state. *)
Variables (clean : matrix) (clean_errors : option matrix).
Variable alpha : float.
Variables (data0 : matrix) (errors0 : py_errors) (rnd0 : np_random).
Variable es0 : eigen_system.

Hypothesis iterate_PCA_keeps_W : forall es x a e d c,
  length (es_W (iterate_PCA es x a e d c)) = length (es_W es).
Hypothesis iterate_PCA_with_data_gaps_keeps_W : forall es x a e d c,
  length (es_W (iterate_PCA_with_data_gaps es x a e d c)) = length (es_W es).

Hypothesis sanitised :
  check_and_make_data_finite data errors = (clean, clean_errors).
Hypothesis some_data : 0 < length clean.
Hypothesis mask_fits :
  match clean_errors with
  | Some a => length clean <= length a
  | None => True
  end.
Hypothesis forgetting :
  resolved_forget_param forget_param (length clean) memory = Ok alpha.
Hypothesis randomised :
  randomise_spec clean (as_py_errors clean_errors)
    {| bit_generator := bit_generator rnd; seed := SeedOverwritten 1 |} =
  (data0, errors0, rnd0).
Hypothesis bootstrapped :
  initalise_robust_pca_param data0 (as_error_map errors0) amount_of_eigen
    amount_to_initalise breakdown_point cauchy_like_function
    derivate_of_cauchy_like_function default_c_sq = Ok es0.

Lemma selected_updater_keeps_W es x a e d c :
  length (es_W (selected_updater errors0 es x a e d c)) = length (es_W es).
Proof.
  destruct errors0; simpl;
    auto using iterate_PCA_keeps_W, iterate_PCA_with_data_gaps_keeps_W.
Qed.

Lemma first_order_fits :
  length data0 = length clean /\
  loop_errors (length clean) (loop_mask (length clean) errors0).
Proof.
  revert randomised; unfold randomise_spec; intros [= <- <- _].
  rewrite reindex_length; unfold drawn_permutation.
  rewrite shuffled_indices_length; split; auto.
  destruct clean_errors as [a|]; cbn [as_py_errors loop_mask].
  - split; [discriminate|]; unfold errors_fit.
    rewrite reindex_length, shuffled_indices_length; lia.
  - split; [discriminate|]; unfold errors_fit; lia.
Qed.



Lemma run_robust_pca_state_schedule :
  amount_to_initalise <= length clean + 1 \/ number_of_iterations <= 1 ->
  exists data' errors' rnd',
    run_robust_pca_state data errors amount_of_eigen amount_to_initalise
      number_of_iterations forget_param breakdown_point memory c_sq
      random_seed rnd =
    Ok (loop_state_after (selected_updater errors0) alpha
          breakdown_point c_sq
          (save_amount_of (length clean) number_of_iterations
             amount_to_initalise)
          es0
          (passes_spec number_of_iterations amount_to_initalise
             (length clean)
             (data0, loop_mask (length clean) errors0, rnd0)),
        data', errors', rnd').
Proof.
  intros Hroom.
  destruct first_order_fits as [Hlen Herr].
  unfold run_robust_pca_state; rewrite sanitised.
  unfold np.shape0.
  change (match forget_param with
          | None => forget_parameter (length clean) memory
          | Some a => Ok a
          end) with (resolved_forget_param forget_param (length clean) memory).
  rewrite forgetting; cbn [bind].
  rewrite randomise_data_order_ok.
  2:{ destruct clean_errors; simpl; auto; simpl in mask_fits; lia. }
  rewrite randomised; cbn [bind]; rewrite bootstrapped; cbn [bind].
  rewrite <- schedule_spec_passes.
  assert (Hselect :
    (match errors0 with
     | ErrNone => (iterate_PCA, ErrNoneList (length clean))
     | _ => (iterate_PCA_with_data_gaps, errors0)
     end) = (selected_updater errors0, loop_mask (length clean) errors0))
    by (destruct errors0; reflexivity).
  rewrite Hselect; clear Hselect.
  destruct number_of_iterations as [|p] eqn:Hp.
  - simpl; eauto.
  - destruct (Nat.le_gt_cases amount_to_initalise (length clean + 1))
      as [Hfits|Hbeyond].
    2:{ assert (p = 0) by lia; subst p.
        rewrite run_passes_no_steps; [|lia|lia|rewrite Hlen; apply Herr].
        assert (Hnil : schedule_spec 1 amount_to_initalise (length clean)
                         data0 (loop_mask (length clean) errors0) rnd0 = []).
        { cbn [schedule_spec]; unfold pass_inputs_spec, range.
          replace (length clean - amount_to_initalise) with 0 by lia.
          cbn [seq map app].
          now destruct (randomise_spec _ _ _) as [[d e] r]. }
        rewrite Hnil; eexists _, _, _; reflexivity. }
    clear Hroom.
    destruct (run_passes_schedule (selected_updater errors0) alpha
                breakdown_point c_sq
                (save_amount_of (length clean) (S p) amount_to_initalise)
                es0 selected_updater_keeps_W (S p) (length clean)
                amount_to_initalise [] data0
                (loop_mask (length clean) errors0) rnd0 Hlen some_data Herr)
      as (data' & errors' & rnd' & E).
    + unfold save_amount_of; simpl length; cbn [update_count]; nia.
    + exists data', errors', rnd'; exact E.
Qed.

Lemma passes_spec_length number_of_passes start n order :
  length (passes_spec number_of_passes start n order) =
  update_count number_of_passes start n.
Proof.
  destruct order as [[d e] r].
  rewrite <- schedule_spec_passes; apply schedule_length.
Qed.


(** C2 (as the code has it).  With a seed size of at most N, at least one
    pass and at least one observation to process, the run performs exactly
    N × number_of_iterations − amount_to_initalise update steps (4800 for
    N = 1000, seed 200 and 5 passes), the diagnostic buffers have
    N × number_of_iterations − amount_to_initalise + 1 rows (4801 there),
    and they are created by a single allocation in the whole run: a step
    taken with a non-zero counter neither allocates nor changes the number
    of rows. *)
Theorem update_steps_and_buffer_rows :
  amount_to_initalise <= length clean ->
  1 <= number_of_iterations ->
  amount_to_initalise < length clean \/ 2 <= number_of_iterations ->
  exists st data' errors' rnd',
    run_robust_pca_state data errors amount_of_eigen amount_to_initalise
      number_of_iterations forget_param breakdown_point memory c_sq
      random_seed rnd = Ok (st, data', errors', rnd') /\
    ls_counter st
    = length clean * number_of_iterations - amount_to_initalise /\
    length (passes_spec number_of_iterations amount_to_initalise (length clean)
              (data0, loop_mask (length clean) errors0, rnd0))
    = length clean * number_of_iterations - amount_to_initalise /\
    tracked_rows (ls_tracked st)
    = Some (length clean * number_of_iterations - amount_to_initalise + 1) /\
    ls_allocated st = 1 /\
    (length clean = 1000 -> amount_to_initalise = 200 ->
     number_of_iterations = 5 ->
     ls_counter st = 4800 /\ tracked_rows (ls_tracked st) = Some 4801) /\
    (forall pca_function alpha delta shape save_amount (d : matrix) e s sp s',
        ls_counter s <> 0 ->
        update_step pca_function alpha delta shape save_amount d e s sp =
        Ok s' ->
        ls_allocated s' = ls_allocated s /\
        tracked_rows (ls_tracked s') = tracked_rows (ls_tracked s)).
Proof.
  intros seed_within_data Hpasses Hsteps.
  destruct (run_robust_pca_state_schedule
              (or_introl (Nat.le_trans _ _ _ seed_within_data
                            (Nat.le_add_r _ 1))))
    as (data' & errors' & rnd' & E).
  eexists _, data', errors', rnd'; split; [exact E|].
  set (inputs := passes_spec number_of_iterations amount_to_initalise
                   (length clean)
                   (data0, loop_mask (length clean) errors0, rnd0)).
  assert (Hcount : length inputs =
                   length clean * number_of_iterations - amount_to_initalise).
  { subst inputs; rewrite passes_spec_length.
    destruct number_of_iterations as [|p]; [lia|]; cbn [update_count]; nia. }
  assert (Hrows : tracked_rows
                    (ls_tracked
                       (loop_state_after (selected_updater errors0) alpha
                          breakdown_point c_sq
                          (save_amount_of (length clean) number_of_iterations
                             amount_to_initalise) es0 inputs))
                  = Some (length clean * number_of_iterations
                          - amount_to_initalise + 1)).
  { cbn [ls_tracked loop_state_after].
    destruct inputs as [|i rest] eqn:Hin.
    - simpl in Hcount; nia.
    - rewrite <- Hin in *.
      rewrite recorded_spec_rows.
      + f_equal; unfold save_amount_of; nia.
      + rewrite pre_states_length, Hcount; unfold save_amount_of; nia. }
  assert (Halloc : ls_allocated
                     (loop_state_after (selected_updater errors0) alpha
                        breakdown_point c_sq
                        (save_amount_of (length clean) number_of_iterations
                           amount_to_initalise) es0 inputs) = 1).
  { cbn [ls_allocated loop_state_after].
    destruct inputs; [simpl in Hcount; nia|reflexivity]. }
  cbn [ls_counter loop_state_after].
  split; [exact Hcount|]; split; [exact Hcount|].
  split; [exact Hrows|]; split; [exact Halloc|]; split.
  - intros Hn Hs Hp; split.
    + rewrite Hcount, Hn, Hs, Hp; reflexivity.
    + rewrite Hrows, Hn, Hs, Hp; reflexivity.
  - intros pca_function alpha' delta shape save_amount d e s sp s' Hs Hstep.
    destruct (update_step_keeps_buffers _ _ _ _ _ _ _ _ _ _ Hs Hstep)
      as (Ha & _ & Hr).
    split; assumption.
Qed.

End Driver.

(** ** Signs of squares and of their sums *)

(** A float that is not below zero: NaN, a zero, or a positive number. *)
Lemma ltb_zero_Prim2SF x :
  (x <? 0)%float = false <->
  match Prim2SF x with
  | S754_infinity true | S754_finite true _ _ => False
  | _ => True
  end.
Proof.
  rewrite ltb_spec.
  replace (Prim2SF 0) with (S754_zero false) by reflexivity.
  destruct (Prim2SF x) as [s| s| |s m e]; try destruct s;
    unfold SFltb; simpl; split; auto; try discriminate; intros [].
Qed.

Lemma binary_round_aux_false m e l :
  match binary_round_aux prec emax false m e l with
  | S754_infinity true | S754_finite true _ _ => False
  | _ => True
  end.
Proof.
  unfold binary_round_aux.
  destruct (shr_fexp prec emax m e l) as [mrs' e'].
  destruct (shr_fexp prec emax _ e' loc_Exact) as [mrs'' e''].
  destruct (shr_m mrs''); auto.
  destruct (Z.leb e'' (emax - prec)); auto.
Qed.

Lemma square_not_negative x : (x * x <? 0)%float = false.
Proof.
  apply ltb_zero_Prim2SF; rewrite mul_spec.
  destruct (Prim2SF x) as [s| s| |s m e]; try destruct s; simpl; auto;
    apply binary_round_aux_false.
Qed.

Lemma add_not_negative x y :
  (x <? 0)%float = false -> (y <? 0)%float = false ->
  (x + y <? 0)%float = false.
Proof.
  rewrite !ltb_zero_Prim2SF, add_spec.
  destruct (Prim2SF x) as [s| s| |s m e]; try destruct s;
    destruct (Prim2SF y) as [s'| s'| |s' m' e']; try destruct s';
    simpl; auto; try contradiction; intros _ _.
  unfold SF64add, SFadd, binary_normalize, cond_Zopp, binary_round; simpl.
  destruct (shl_align _ _ _) as [mz ez].
  apply binary_round_aux_false.
Qed.

Lemma zero_ltb_Prim2SF y :
  (0 <? y)%float = true ->
  exists m e, Prim2SF y = S754_infinity false \/ Prim2SF y = S754_finite false m e.
Proof.
  rewrite ltb_spec.
  replace (Prim2SF 0) with (S754_zero false) by reflexivity.
  destruct (Prim2SF y) as [s| s| |s m e]; try destruct s;
    unfold SFltb; simpl; try discriminate; intros _.
  - exists 1%positive, 0%Z; now left.
  - exists m, e; now right.
Qed.

Lemma binary_round_aux_positive_sign m e l :
  match binary_round_aux prec emax false m e l with
  | S754_zero true | S754_infinity true | S754_finite true _ _ => False
  | _ => True
  end.
Proof.
  unfold binary_round_aux.
  destruct (shr_fexp prec emax m e l) as [mrs' e'].
  destruct (shr_fexp prec emax _ e' loc_Exact) as [mrs'' e''].
  destruct (shr_m mrs''); auto.
  destruct (Z.leb e'' (emax - prec)); auto.
Qed.

Lemma sum_from_not_negative (a : vector) (acc : float) :
  (acc <? 0)%float = false ->
  Forall (fun x => (x <? 0)%float = false) a ->
  (fold_left PrimFloat.add a acc <? 0)%float = false.
Proof.
  intros Hacc Ha; revert acc Hacc.
  induction Ha as [|x a Hx Ha IH]; intros acc Hacc; simpl; auto.
  apply IH; now apply add_not_negative.
Qed.

Lemma nansum_not_negative (a : vector) :
  Forall (fun x => (x <? 0)%float = false) a ->
  (np.nansum a <? 0)%float = false.
Proof.
  intros Ha; unfold np.nansum, np.sum.
  apply sum_from_not_negative; [reflexivity|].
  apply Forall_map; eapply Forall_impl; [|exact Ha].
  intros x Hx; unfold np.nan_to_zero; now destruct (is_nan x).
Qed.

Lemma vsquare_not_negative (a : vector) :
  Forall (fun x => (x <? 0)%float = false) (np.vsquare a).
Proof.
  unfold np.vsquare; apply Forall_map, Forall_forall.
  intros x _; apply square_not_negative.
Qed.

Lemma nansum_axis1_square_not_negative (a : matrix) :
  Forall (fun x => (x <? 0)%float = false) (np.nansum_axis1 (np.square a)).
Proof.
  unfold np.nansum_axis1, np.square; rewrite map_map.
  apply Forall_map, Forall_forall; intros row _.
  apply nansum_not_negative, (vsquare_not_negative row).
Qed.

(** ** Shapes and signs along the bootstrap *)

Lemma mag_residual_sq_one_per_row residuals error_map after out :
  mag_residual_sq residuals error_map = Ok (after, out) ->
  length after = length residuals /\
  length out = length residuals /\
  Forall (fun x => (x <? 0)%float = false) out.
Proof.
  unfold mag_residual_sq.
  set (masked := match error_map with
                 | Some m => assign_nan_where_zero residuals
                               (firstn (np.shape0 residuals) m)
                 | None => Ok residuals
                 end).
  assert (Hmasked : forall a, masked = Ok a -> length a = length residuals).
  { subst masked; destruct error_map as [m|]; intros a.
    - unfold assign_nan_where_zero.
      destruct (same_shape _ _) eqn:Hs; [|discriminate].
      apply same_shape_length in Hs; intros H.
      assert (E : a = map2 (map2 (fun x e => if (e =? 0)%float then nan else x))
                        residuals (firstn (np.shape0 residuals) m))
        by congruence.
      rewrite E, map2_length, <- Hs; apply Nat.min_id.
    - intros H; now assert (E : a = residuals) by congruence; subst. }
  destruct masked as [a|e]; [|discriminate]; cbn [bind].
  intros H.
  assert (Ea : after = a) by congruence.
  assert (Eo : out = np.nansum_axis1 (np.square a)) by congruence.
  subst after out; rewrite (Hmasked a eq_refl); repeat split.
  - unfold np.nansum_axis1, np.square; now rewrite !length_map, (Hmasked a eq_refl).
  - apply nansum_axis1_square_not_negative.
Qed.

Lemma get_residual_rows observation_vector eigen_vector_matrix residuals :
  get_residual observation_vector eigen_vector_matrix = Ok residuals ->
  length residuals = length observation_vector.
Proof.
  unfold get_residual, reconstruct_observation.
  destruct (np.matmul_T _ _) as [ebt|]; [|discriminate]; cbn [bind].
  unfold np.matmul; destruct (forallb _ _); [|discriminate]; cbn [bind].
  intros H.
  assert (E : residuals =
              np.sub observation_vector
                (map (fun row => map (np.dot row) (np.transpose ebt))
                   observation_vector)) by congruence.
  rewrite E; unfold np.sub; rewrite map2_length, length_map; apply Nat.min_id.
Qed.

Lemma sign_clear_not_negative x : sign_clear x -> (x <? 0)%float = false.
Proof.
  unfold sign_clear; rewrite ltb_zero_Prim2SF.
  destruct (Prim2SF x) as [s| s| |s m e]; try destruct s; auto.
Qed.

Lemma positive_sign_clear y : (0 <? y)%float = true -> sign_clear y.
Proof.
  intros H; apply zero_ltb_Prim2SF in H as (m & e & [H|H]);
    unfold sign_clear; now rewrite H.
Qed.

Lemma add_sign_clear x y :
  sign_clear x -> (y <? 0)%float = false -> sign_clear (x + y).
Proof.
  unfold sign_clear; rewrite ltb_zero_Prim2SF, add_spec.
  destruct (Prim2SF x) as [s| s| |s m e]; try destruct s;
    destruct (Prim2SF y) as [s'| s'| |s' m' e']; try destruct s';
    simpl; auto; try contradiction; intros _ _.
  unfold SF64add, SFadd, binary_normalize, cond_Zopp, binary_round; simpl.
  destruct (shl_align _ _ _) as [mz ez].
  apply binary_round_aux_positive_sign.
Qed.

Lemma mul_sign_clear x y : sign_clear x -> sign_clear y -> sign_clear (x * y).
Proof.
  unfold sign_clear; rewrite mul_spec.
  destruct (Prim2SF x) as [s| s| |s m e]; try destruct s;
    destruct (Prim2SF y) as [s'| s'| |s' m' e']; try destruct s';
    simpl; auto; try contradiction; intros _ _.
  apply binary_round_aux_positive_sign.
Qed.

Lemma div_sign_clear x y : sign_clear x -> sign_clear y -> sign_clear (x / y).
Proof.
  unfold sign_clear; rewrite div_spec.
  destruct (Prim2SF x) as [s| s| |s m e]; try destruct s;
    destruct (Prim2SF y) as [s'| s'| |s' m' e']; try destruct s';
    simpl; auto; try contradiction; intros _ _.
  destruct (SFdiv_core_binary _ _ _ _ _ _) as [[mz ez] lz].
  apply binary_round_aux_positive_sign.
Qed.

Lemma of_nat_sign_clear n : sign_clear (np.of_nat n).
Proof.
  unfold sign_clear, np.of_nat; rewrite of_uint63_spec.
  pose proof (Uint63.to_Z_bounded (Uint63.of_Z (Z.of_nat n))) as [Hn _].
  destruct (Uint63.to_Z (Uint63.of_Z (Z.of_nat n))) as [|p|p];
    [exact I| |exfalso; apply Hn; reflexivity].
  unfold binary_normalize, binary_round.
  destruct (shl_align _ _ _) as [mz ez].
  apply binary_round_aux_positive_sign.
Qed.

Lemma sum_from_sign_clear (a : vector) (acc : float) :
  sign_clear acc ->
  Forall (fun x => (x <? 0)%float = false) a ->
  sign_clear (fold_left PrimFloat.add a acc).
Proof.
  intros Hacc Ha; revert acc Hacc.
  induction Ha as [|x a Hx Ha IH]; intros acc Hacc; simpl; auto.
  apply IH; now apply add_sign_clear.
Qed.

Lemma nansum_sign_clear (a : vector) :
  Forall (fun x => (x <? 0)%float = false) a -> sign_clear (np.nansum a).
Proof.
  intros Ha; unfold np.nansum, np.sum.
  apply sum_from_sign_clear; [exact I|].
  apply Forall_map; eapply Forall_impl; [|exact Ha].
  intros x Hx; unfold np.nan_to_zero; now destruct (is_nan x).
Qed.

Lemma nanmean_sign_clear (a : vector) :
  Forall (fun x => (x <? 0)%float = false) a -> sign_clear (np.nanmean a).
Proof.
  intros Ha; unfold np.nanmean.
  apply div_sign_clear; [now apply nansum_sign_clear|apply of_nat_sign_clear].
Qed.

Lemma scale_rounds_sign_clear residuals_sq breakdown_point robust_function
  c_sq s n :
  (forall t, (t <? 0)%float = false ->
             (robust_function t c_sq <? 0)%float = false) ->
  (0 <? breakdown_point)%float = true ->
  Forall sign_clear residuals_sq ->
  sign_clear s ->
  sign_clear
    (Nat.iter n
       (scale_round_spec residuals_sq breakdown_point robust_function c_sq) s).
Proof.
  intros Hw Hbp Hr Hs; induction n as [|n IH]; [exact Hs|].
  cbn [Nat.iter]; unfold scale_round_spec at 1.
  apply mul_sign_clear; [exact IH|].
  apply div_sign_clear; [|now apply positive_sign_clear].
  apply nanmean_sign_clear; rewrite map_map.
  apply Forall_map; eapply Forall_impl; [|exact Hr].
  intros r Hsign; apply Hw, sign_clear_not_negative.
  now apply div_sign_clear.
Qed.

Lemma mag_residual_sq_sign_clear residuals error_map after out :
  mag_residual_sq residuals error_map = Ok (after, out) ->
  Forall sign_clear out.
Proof.
  unfold mag_residual_sq.
  destruct (match error_map with
            | Some m => assign_nan_where_zero residuals
                          (firstn (np.shape0 residuals) m)
            | None => Ok residuals
            end) as [a|]; [|discriminate].
  cbn [bind]; intros H.
  assert (E : out = np.nansum_axis1 (np.square a)) by congruence.
  rewrite E; unfold np.nansum_axis1, np.square; rewrite map_map.
  apply Forall_map, Forall_forall; intros row _.
  apply nansum_sign_clear, (vsquare_not_negative row).
Qed.

Lemma get_mag_residuals_sq_sign_clear data eigen_vectors error_map
  residuals_sq :
  get_mag_residuals_sq data eigen_vectors error_map = Ok residuals_sq ->
  Forall sign_clear residuals_sq.
Proof.
  unfold get_mag_residuals_sq.
  destruct (get_residual data eigen_vectors) as [r|]; [|discriminate].
  cbn [bind].
  destruct (mag_residual_sq r error_map) as [[after out]|] eqn:Hm;
    [|discriminate].
  cbn [bind]; intros H.
  assert (E : residuals_sq = out) by congruence; subst out.
  exact (mag_residual_sq_sign_clear _ _ _ _ Hm).
Qed.

(** X1.  Whenever [get_mag_residuals_sq] returns, it returns one value per
    observation, and none of them is negative (each is zero, positive,
    infinite or, at worst, undefined). *)
Theorem get_mag_residuals_sq_one_per_observation (data eigen_vectors : matrix)
  (error_map : option matrix) (residuals_sq : vector) :
  get_mag_residuals_sq data eigen_vectors error_map = Ok residuals_sq ->
  length residuals_sq = length data /\
  Forall (fun x => (x <? 0)%float = false) residuals_sq.
Proof.
  unfold get_mag_residuals_sq.
  destruct (get_residual data eigen_vectors) as [r|] eqn:Hr; [|discriminate].
  cbn [bind].
  destruct (mag_residual_sq r error_map) as [[after out]|] eqn:Hm;
    [|discriminate].
  cbn [bind]; intros H.
  assert (E : residuals_sq = out) by congruence; subst out.
  destruct (mag_residual_sq_one_per_row _ _ _ _ Hm) as (_ & Hlen & Hsign).
  split; [|exact Hsign].
  now rewrite Hlen, (get_residual_rows _ _ _ Hr).
Qed.

(** X2.  In a state returned by the bootstrap no eigenvalue is negative, at
    most [amount_of_eigen] eigenvalues and eigenvector components are kept,
    and, when the weighting function has no negative value on arguments
    that are not negative and the breakdown point is positive, the scale²
    is not negative either. *)
Theorem bootstrap_state_signs (data : matrix) (errors : option matrix)
  (amount_of_eigen amount_to_initalise : nat) (breakdown_point : float)
  (robust_function robust_derivative : float -> float -> float)
  (c_sq : float) (st : eigen_system) :
  initalise_robust_pca_param data errors amount_of_eigen amount_to_initalise
    breakdown_point robust_function robust_derivative c_sq = Ok st ->
  Forall (fun w => (w <? 0)%float = false) (es_W st)
  /\ length (es_W st) <= amount_of_eigen
  /\ Forall (fun row => length row <= amount_of_eigen) (es_U st)
  /\ ((forall t, (t <? 0)%float = false ->
                 (robust_function t c_sq <? 0)%float = false) ->
      (0 <? breakdown_point)%float = true ->
      (es_sig2 st <? 0)%float = false).
Proof.
  rewrite initalise_robust_pca_param_eq; cbv zeta.
  unfold initalise_eigensystem, get_eigen_system.
  destruct (do_initial_SVD _) as [[vt s]|]; [|discriminate]; cbn [bind].
  destruct (get_mag_residuals_sq _ _ _) as [r|] eqn:Hr; [|discriminate].
  cbn [bind]; intros H.
  assert (E : st = {| es_U := map (firstn amount_of_eigen) (np.transpose vt);
                      es_m := np.nanmean_axis0 data;
                      es_W := firstn amount_of_eigen (np.vsquare s);
                      es_vqu := initalise_vqu r
                                  (initalise_scale_using_residuals_sq r
                                     breakdown_point amount_of_eigen
                                     robust_function c_sq)
                                  robust_derivative c_sq;
                      es_sig2 := initalise_scale_using_residuals_sq r
                                   breakdown_point amount_of_eigen
                                   robust_function c_sq |}) by congruence.
  subst st; cbn [es_W es_U es_sig2]; repeat split.
  - unfold np.vsquare; rewrite firstn_map.
    apply (vsquare_not_negative (firstn amount_of_eigen s)).
  - apply firstn_le_length.
  - apply Forall_map, Forall_forall; intros row _; apply firstn_le_length.
  - intros Hw Hbp; rewrite initalise_scale_as_rounds.
    pose proof (get_mag_residuals_sq_sign_clear _ _ _ _ Hr) as Hsign.
    apply sign_clear_not_negative, scale_rounds_sign_clear; auto.
    apply nanmean_sign_clear; eapply Forall_impl; [|exact Hsign].
    intros x; apply sign_clear_not_negative.
Qed.

(** ** What the randomizer keeps, and when it raises *)

Lemma map_nth_seq (a : matrix) :
  map (fun j => nth j a []) (seq 0 (length a)) = a.
Proof.
  induction a as [|row a IH]; [reflexivity|].
  cbn [length seq map nth]; f_equal.
  rewrite <- seq_shift, map_map; exact IH.
Qed.

Lemma reindex_permutation (a : matrix) (indices : list nat) :
  Permutation (seq 0 (length a)) indices -> Permutation a (reindex a indices).
Proof.
  intros H; unfold reindex.
  rewrite <- (map_nth_seq a) at 1.
  now apply Permutation_map.
Qed.

Lemma combine_reindex (a b : matrix) (indices : list nat) :
  length a = length b ->
  combine (reindex a indices) (reindex b indices) =
  map (fun j => nth j (combine a b) ([], [])) indices.
Proof.
  intros Hlen; unfold reindex.
  induction indices as [|j rest IH]; [reflexivity|].
  cbn [map combine]; rewrite IH; f_equal.
  symmetry; now apply combine_nth.
Qed.

Lemma map_nth_seq_pairs (a : list (vector * vector)) :
  map (fun j => nth j a ([], [])) (seq 0 (length a)) = a.
Proof.
  induction a as [|p a IH]; [reflexivity|].
  cbn [length seq map nth]; f_equal.
  rewrite <- seq_shift, map_map; exact IH.
Qed.

(** X3.  Given that the library shuffle rearranges its argument, the
    randomizer returns the observations it was given, each exactly once, in
    some order; with a mask of as many rows, the observation-mask pairs it
    returns are the pairs it was given, each exactly once; and it leaves the
    attribute [np.random.seed] as it found it. *)
Theorem randomise_data_order_keeps_observations (data : matrix)
  (rnd : np_random) :
  (exists data' rnd',
      randomise_data_order data ErrNone rnd = Ok (data', ErrNone, rnd') /\
      Permutation data data' /\ seed rnd' = seed rnd)
  /\ (forall mask,
        length mask = length data -> 0 < length mask ->
        exists data' mask' rnd',
          randomise_data_order data (ErrArray mask) rnd =
          Ok (data', ErrArray mask', rnd') /\
          Permutation data data' /\ Permutation mask mask' /\
          Permutation (combine data mask) (combine data' mask') /\
          seed rnd' = seed rnd).
Proof.
  pose proof (shuffle_permutes (bit_generator rnd) (seq 0 (length data))) as Hp.
  split.
  - eexists _, _; split.
    + rewrite randomise_data_order_ok by exact I; reflexivity.
    + split; [|reflexivity]; now apply reindex_permutation.
  - intros mask Hlen Hpos.
    eexists _, _, _; split.
    + rewrite randomise_data_order_ok by (simpl; lia); reflexivity.
    + split; [now apply reindex_permutation|].
      split; [apply reindex_permutation; now rewrite Hlen|].
      split; [|reflexivity].
      rewrite combine_reindex by (symmetry; exact Hlen).
      rewrite <- (map_nth_seq_pairs (combine data mask)) at 1.
      apply Permutation_map.
      rewrite length_combine, Hlen, Nat.min_id, <- Hlen.
      unfold drawn_permutation; now rewrite Hlen.
Qed.

Lemma take_out_of_range {A} (a : list A) (indices : list nat) j :
  In j indices -> length a <= j -> take a indices = Raise IndexError.
Proof.
  intros Hj Hout; induction indices as [|i rest IH]; [contradiction|].
  cbn [take]; unfold getitem at 1.
  destruct (nth_error a i) as [x|] eqn:Ei; [|reflexivity].
  cbn [bind].
  destruct Hj as [-> | Hj].
  - apply nth_error_None in Hout; congruence.
  - now rewrite (IH Hj).
Qed.

(** X4.  Given that the library shuffle rearranges its argument, the
    randomizer raises [IndexError] when the mask array has fewer rows than
    the data, and also when it is handed an empty list of [None]. *)
Theorem randomise_data_order_short_mask (data mask : matrix)
  (rnd : np_random) :
  (length mask < length data ->
   randomise_data_order data (ErrArray mask) rnd = Raise IndexError)
  /\ randomise_data_order data (ErrNoneList 0) rnd = Raise IndexError.
Proof.
  pose proof (shuffled_indices_in_range (bit_generator rnd) (length data)) as Hr.
  pose proof (shuffle_permutes (bit_generator rnd) (seq 0 (length data))) as Hp.
  unfold randomise_data_order, np.shape0.
  destruct (shuffle (bit_generator rnd) (seq 0 (length data))) as [perm g].
  cbn [fst] in Hr, Hp.
  rewrite (take_reindex data perm Hr); cbn [bind].
  split; [|reflexivity].
  intros Hshort.
  destruct mask as [|row mask]; [reflexivity|].
  cbn [getitem nth_error bind].
  rewrite (take_out_of_range (row :: mask) perm (length (row :: mask)));
    [reflexivity| |lia].
  apply (Permutation_in _ Hp), in_seq; lia.
Qed.

(** ** Masks and operands of the wrong shape *)

Lemma same_shape_false_rows a b i r r' :
  nth_error a i = Some r -> nth_error b i = Some r' ->
  length r <> length r' -> same_shape a b = false.
Proof.
  intros Ha Hb Hne; destruct (same_shape a b) eqn:Hs; [|reflexivity].
  exfalso; apply Hne; exact (same_shape_rows _ _ _ _ _ Hs Ha Hb).
Qed.

(** X5.  [mag_residual_sq] raises [IndexError] when the mask has fewer rows
    than the residual matrix, and when a mask row among the leading ones is
    not as wide as the residual row it belongs to; nothing is applied on a
    partial slice. *)
Theorem mag_residual_sq_misshapen_mask (residuals error_map : matrix) :
  (length error_map < length residuals ->
   mag_residual_sq residuals (Some error_map) = Raise IndexError)
  /\ (forall i row errs,
        nth_error residuals i = Some row ->
        nth_error error_map i = Some errs ->
        length row <> length errs ->
        mag_residual_sq residuals (Some error_map) = Raise IndexError).
Proof.
  unfold mag_residual_sq, assign_nan_where_zero, np.shape0; split.
  - intros Hshort.
    replace (same_shape residuals (firstn (length residuals) error_map))
      with false; [reflexivity|].
    symmetry; unfold same_shape.
    rewrite length_firstn.
    replace (length residuals =? Nat.min (length residuals) (length error_map))
      with false; [reflexivity|].
    symmetry; apply Nat.eqb_neq; lia.
  - intros i row errs Hr He Hne.
    rewrite (same_shape_false_rows residuals
               (firstn (length residuals) error_map) i row errs);
      auto.
    rewrite nth_error_firstn.
    replace (i <? length residuals) with true; [exact He|].
    symmetry; apply Nat.ltb_lt, nth_error_Some; congruence.
Qed.

Lemma matmul_T_rows (a b c : matrix) :
  np.matmul_T a b = Ok c ->
  length c = length a /\ Forall (fun row => length row = length b) c.
Proof.
  unfold np.matmul_T; destruct (forallb _ a); [|discriminate].
  intros H.
  assert (E : c = map (fun row => map (np.dot row) b) a) by congruence.
  rewrite E, length_map; split; [reflexivity|].
  apply Forall_map, Forall_forall; intros row _; apply length_map.
Qed.

Lemma transpose_length (a : matrix) :
  length (np.transpose a) = np.shape1 a.
Proof. unfold np.transpose; now rewrite length_map, length_seq. Qed.

Lemma same_shape_intro (a b : matrix) :
  length a = length b ->
  (forall i r r', nth_error a i = Some r -> nth_error b i = Some r' ->
                  length r = length r') ->
  same_shape a b = true.
Proof.
  revert b; induction a as [|r a IH]; intros [|r' b] Hlen H;
    try discriminate; [reflexivity|].
  rewrite same_shape_cons, (H 0 r r' eq_refl eq_refl), Nat.eqb_refl.
  apply IH; [simpl in Hlen; lia|].
  intros i x x' Hx Hx'; exact (H (S i) x x' Hx Hx').
Qed.

(** X6.  [get_residual] raises nothing but [ValueError]; when it returns,
    every observation has as many entries as the eigenvector matrix has
    rows, and the residuals have the shape of the observations. *)
Theorem get_residual_shape (observation_vector eigen_vector_matrix : matrix) :
  get_residual observation_vector eigen_vector_matrix = Raise ValueError
  \/ exists residuals,
      get_residual observation_vector eigen_vector_matrix = Ok residuals /\
      Forall (fun row => length row = length eigen_vector_matrix)
        observation_vector /\
      same_shape residuals observation_vector = true.
Proof.
  unfold get_residual, reconstruct_observation.
  destruct (np.matmul_T eigen_vector_matrix eigen_vector_matrix)
    as [ebt|e] eqn:Hebt.
  2:{ left; revert Hebt; unfold np.matmul_T.
      destruct (forallb _ _); [discriminate|]; intros H.
      assert (E : e = ValueError) by congruence; now subst. }
  destruct (matmul_T_rows _ _ _ Hebt) as [Hrows Hwidth].
  cbn [bind]; unfold np.matmul.
  destruct (forallb _ observation_vector) eqn:Hobs; [|now left].
  right; eexists; split; [reflexivity|].
  rewrite forallb_forall in Hobs.
  assert (Hobs' : Forall (fun row => length row = length eigen_vector_matrix)
                    observation_vector).
  { apply Forall_forall; intros row Hrow.
    rewrite <- Hrows; apply Nat.eqb_eq, Hobs, Hrow. }
  split; [exact Hobs'|].
  apply same_shape_intro.
  - unfold np.sub; rewrite map2_length, length_map; apply Nat.min_id.
  - intros i r row Hr Hrow.
    assert (Hin : length row = length eigen_vector_matrix).
    { rewrite Forall_forall in Hobs'; apply Hobs'.
      eapply nth_error_In; eauto. }
    unfold np.sub in Hr.
    assert (Hrec : nth_error
                     (map (fun row => map (np.dot row) (np.transpose ebt))
                        observation_vector) i
                   = Some (map (np.dot row) (np.transpose ebt)))
      by exact (map_nth_error
                  (fun row => map (np.dot row) (np.transpose ebt)) i
                  observation_vector Hrow).
    rewrite (map2_nth_error _ _ _ _ _ _ Hrow Hrec) in Hr.
    assert (E : r = map2 PrimFloat.sub row
                      (map (np.dot row) (np.transpose ebt))) by congruence.
    rewrite E, map2_length, length_map, transpose_length.
    assert (Hw : np.shape1 ebt = length row).
    { unfold np.shape1; destruct ebt as [|first rest].
      - simpl in Hrows; simpl; lia.
      - simpl; inversion Hwidth; subst; lia. }
    rewrite Hw; apply Nat.min_id.
Qed.

(** ** The exceptions of the bootstrap *)

Lemma mag_residual_sq_raises residuals error_map e :
  mag_residual_sq residuals error_map = Raise e -> e = IndexError.
Proof.
  unfold mag_residual_sq, assign_nan_where_zero.
  destruct error_map as [m|]; [|discriminate].
  destruct (same_shape _ _); [discriminate|].
  cbn [bind]; congruence.
Qed.

Lemma get_residual_raises observation_vector eigen_vector_matrix e :
  get_residual observation_vector eigen_vector_matrix = Raise e ->
  e = ValueError.
Proof.
  unfold get_residual, reconstruct_observation, np.matmul_T, np.matmul.
  destruct (forallb _ eigen_vector_matrix); cbn [bind]; [|congruence].
  destruct (forallb _ observation_vector); cbn [bind]; [discriminate|].
  congruence.
Qed.

Lemma get_mag_residuals_sq_raises data eigen_vectors error_map e :
  get_mag_residuals_sq data eigen_vectors error_map = Raise e ->
  e = ValueError \/ e = IndexError.
Proof.
  unfold get_mag_residuals_sq.
  destruct (get_residual data eigen_vectors) as [r|e'] eqn:Hr; cbn [bind].
  - destruct (mag_residual_sq r error_map) as [[after out]|e'] eqn:Hm;
      cbn [bind]; [discriminate|].
    intros H; right.
    assert (E : e = e') by congruence; subst e'.
    exact (mag_residual_sq_raises _ _ _ Hm).
  - intros H; left.
    assert (E : e = e') by congruence; subst e'.
    exact (get_residual_raises _ _ _ Hr).
Qed.

(** X7.  The bootstrap never raises [LinAlgError].  What it raises is the
    [TypeError] with the sanitising message, when the decomposition of the
    centred, normalised data raised [LinAlgError]; any other exception of
    the decomposition, unchanged; [ValueError], from a matrix product; or
    [IndexError], from a mask of the wrong shape. *)
Theorem bootstrap_exceptions (data : matrix) (errors : option matrix)
  (amount_of_eigen amount_to_initalise : nat) (breakdown_point : float)
  (robust_function robust_derivative : float -> float -> float)
  (c_sq : float) (e : exn) :
  initalise_robust_pca_param data errors amount_of_eigen amount_to_initalise
    breakdown_point robust_function robust_derivative c_sq = Raise e ->
  e <> LinAlgError /\
  ((e = TypeError svd_message /\
    svd (np.div_scalar (np.sub_rows data (np.nanmean_axis0 data))
           (sqrt (np.of_nat (length data)))) = Raise LinAlgError)
   \/ svd (np.div_scalar (np.sub_rows data (np.nanmean_axis0 data))
             (sqrt (np.of_nat (length data)))) = Raise e
   \/ e = ValueError \/ e = IndexError).
Proof.
  rewrite initalise_robust_pca_param_eq; cbv zeta.
  unfold initalise_eigensystem, get_eigen_system, do_initial_SVD, np.shape0.
  unfold np.sub_rows at 1 2; rewrite length_map.
  fold (np.sub_rows data (np.nanmean_axis0 data)).
  destruct (svd _) as [[[u s] vh]|e'] eqn:Hsvd; cbn [bind].
  - destruct (get_mag_residuals_sq _ _ _) as [r|e'] eqn:Hr; cbn [bind];
      [discriminate|].
    intros H; assert (E : e = e') by congruence; subst e'.
    destruct (get_mag_residuals_sq_raises _ _ _ _ Hr) as [-> | ->];
      split; try discriminate; auto.
  - destruct e'; cbn [bind]; intros H;
      match type of H with
      | Raise ?x = Raise _ => assert (E : e = x) by congruence; subst e
      end;
      split; try discriminate; auto.
Qed.

(** ** One call of the tracking *)

Lemma setitem_nth_error {T} (a a' : list T) i v :
  setitem a i v = Ok a' ->
  nth_error a' i = Some v /\
  forall j, j <> i -> nth_error a' j = nth_error a j.
Proof.
  unfold setitem; destruct (i <? length a) eqn:Hi; [|discriminate].
  apply Nat.ltb_lt in Hi; intros H.
  assert (E : a' = firstn i a ++ v :: skipn (S i) a) by congruence.
  assert (Hf : length (firstn i a) = i) by (rewrite length_firstn; lia).
  subst a'; split.
  - rewrite nth_error_app2, Hf, Nat.sub_diag by lia; reflexivity.
  - intros j Hj; destruct (Nat.lt_ge_cases j i) as [Hlt|Hge].
    + rewrite nth_error_app1, nth_error_firstn by lia.
      now replace (j <? i) with true by (symmetry; apply Nat.ltb_lt; lia).
    + rewrite nth_error_app2, Hf by lia.
      replace (j - i) with (S (j - i - 1)) by lia.
      change (nth_error (v :: skipn (S i) a) (S (j - i - 1)))
        with (nth_error (skipn (S i) a) (j - i - 1)).
      rewrite nth_error_skipn; f_equal; lia.
Qed.

Lemma setrow_nth_error buffer buffer' i w :
  setrow buffer i w = Ok buffer' ->
  (exists w', nth_error buffer' i = Some w' /\
              (w' = w \/ length w = 1 /\ w' = repeat (hd nan w) (length w'))) /\
  forall j, j <> i -> nth_error buffer' j = nth_error buffer j.
Proof.
  unfold setrow; destruct (nth_error buffer i) as [old|]; [|discriminate].
  destruct (length w =? length old).
  - intros H; destruct (setitem_nth_error _ _ _ _ H) as [Hi Hj].
    split; [exists w; auto|exact Hj].
  - destruct (length w =? 1) eqn:H1; [|discriminate].
    apply Nat.eqb_eq in H1.
    intros H; destruct (setitem_nth_error _ _ _ _ H) as [Hi Hj].
    split; [|exact Hj].
    eexists; split; [exact Hi|right; split; [exact H1|]].
    now rewrite repeat_length.
Qed.

(** X8.  A successful call of [track_eigensystem_updates] with a non-zero
    counter returns the counter plus one and buffers in which row [counter]
    holds the scale² and v-statistic of the state and its eigenvalues (a
    single eigenvalue may have been broadcast over the row), and in which
    every other row is what it was before the call. *)
Theorem track_eigensystem_updates_writes_one_row (counter : nat)
  (es : eigen_system) (t : tracking) (save_amount : Z) (allocated : nat)
  (t' : tracking) (counter' allocated' : nat) :
  counter <> 0 ->
  track_eigensystem_updates counter es t save_amount allocated =
  Ok (t', counter', allocated') ->
  counter' = counter + 1 /\
  (exists w,
      tracked_row t' counter = Some (w, es_sig2 es, fst (fst (es_vqu es))) /\
      (w = es_W es \/
       length (es_W es) = 1 /\ w = repeat (hd nan (es_W es)) (length w))) /\
  (forall i, i <> counter -> tracked_row t' i = tracked_row t i).
Proof.
  intros Hc; unfold track_eigensystem_updates.
  destruct (counter =? 0) eqn:E; [apply Nat.eqb_eq in E; contradiction|].
  cbn [bind]; destruct t as [|b]; [discriminate|].
  destruct (setrow _ _ _) as [w|] eqn:Hw; [|discriminate]; cbn [bind].
  destruct (setitem (tr_vqu b) _ _) as [v|] eqn:Hv; [|discriminate]; cbn [bind].
  destruct (setitem (tr_sig2 b) _ _) as [sg|] eqn:Hs; [|discriminate]; cbn [bind].
  intros H.
  assert (Et : t' = Buffers {| tr_W := w; tr_sig2 := sg; tr_vqu := v |})
    by congruence.
  assert (Ec : counter' = counter + 1) by congruence.
  subst t'; split; [exact Ec|].
  destruct (setrow_nth_error _ _ _ _ Hw) as [(w' & Hw' & Hform) Hwj].
  destruct (setitem_nth_error _ _ _ _ Hv) as [Hv' Hvj].
  destruct (setitem_nth_error _ _ _ _ Hs) as [Hs' Hsj].
  unfold tracked_row; cbn [tr_W tr_sig2 tr_vqu]; split.
  - exists w'; rewrite Hw', Hv', Hs'; split; [reflexivity|exact Hform].
  - intros i Hi; now rewrite (Hwj i Hi), (Hvj i Hi), (Hsj i Hi).
Qed.

(** X9.  [track_eigensystem_updates] raises [KeyError] when the counter is
    not zero and the tracking dictionary is still empty, [IndexError] when
    the counter is not below the number of rows of the buffers, and, for a
    zero counter, [ValueError] when the requested number of rows is
    negative and [IndexError] when it is zero. *)
Theorem track_eigensystem_updates_raises (counter : nat) (es : eigen_system)
  (save_amount : Z) (allocated : nat) :
  (counter <> 0 ->
   track_eigensystem_updates counter es EmptyDict save_amount allocated =
   Raise KeyError)
  /\ (forall b, counter <> 0 -> length (tr_W b) <= counter ->
        track_eigensystem_updates counter es (Buffers b) save_amount allocated =
        Raise IndexError)
  /\ (forall t, (save_amount < 0)%Z ->
        track_eigensystem_updates 0 es t save_amount allocated =
        Raise ValueError)
  /\ (forall t,
        track_eigensystem_updates 0 es t 0 allocated = Raise IndexError).
Proof.
  unfold track_eigensystem_updates; repeat split.
  - intros Hc; apply Nat.eqb_neq in Hc; now rewrite Hc.
  - intros b Hc Hrows; apply Nat.eqb_neq in Hc; rewrite Hc; cbn [bind].
    unfold setrow; apply nth_error_None in Hrows; now rewrite Hrows.
  - intros t Hneg; cbn [Nat.eqb]; unfold initialise_tracked_eigen_updates.
    apply Z.ltb_lt in Hneg; now rewrite Hneg.
Qed.

(** ** The first recorded row, centring, and an empty seed *)

(** X14.  A call of [track_eigensystem_updates] with counter 0 and a
    positive number of rows discards whatever tracking dictionary it is
    given: it returns fresh buffers of [save_amount] rows whose row 0 holds
    the diagnostics of the state and whose other rows are zero, and the
    counter 1. *)
Theorem track_eigensystem_updates_first_call (es : eigen_system)
  (t : tracking) (save_amount : Z) (allocated : nat) :
  (0 < save_amount)%Z ->
  exists t',
    track_eigensystem_updates 0 es t save_amount allocated =
    Ok (t', 1, S allocated) /\
    tracked_rows t' = Some (Z.to_nat save_amount) /\
    tracked_row t' 0 = Some (diagnostic_row es) /\
    forall i, 0 < i < Z.to_nat save_amount ->
      tracked_row t' i =
      Some (np.zeros (length (es_W es)), 0%float, 0%float).
Proof.
  intros Hpos; unfold track_eigensystem_updates.
  cbn [Nat.eqb]; unfold initialise_tracked_eigen_updates.
  replace (save_amount <? 0)%Z with false by (symmetry; apply Z.ltb_ge; lia).
  destruct (Z.to_nat save_amount) as [|m] eqn:Hm; [lia|].
  cbn [bind tr_W tr_sig2 tr_vqu].
  unfold np.zeros2, np.zeros; cbn [repeat].
  unfold setrow; cbn [nth_error].
  rewrite repeat_length, Nat.eqb_refl.
  unfold setitem; cbn [length Nat.ltb Nat.leb firstn skipn app bind].
  eexists; split; [reflexivity|].
  unfold tracked_rows, tracked_row, diagnostic_row;
    cbn [tr_W tr_sig2 tr_vqu length nth_error].
  rewrite !repeat_length, Nat.eqb_refl; cbn [andb].
  split; [reflexivity|split; [reflexivity|]].
  intros [|i] Hi; [lia|]; cbn [nth_error].
  now rewrite !nth_error_repeat by lia.
Qed.

Lemma sum_zeros (n : nat) : np.sum (repeat 0%float n) = 0%float.
Proof.
  unfold np.sum; induction n as [|n IH]; [reflexivity|exact IH].
Qed.

Lemma nanmean_all_nan (a : vector) :
  forallb is_nan a = true -> is_nan (np.nanmean a) = true.
Proof.
  intros H; unfold np.nanmean, np.nansum, np.count_valid.
  assert (Hz : map np.nan_to_zero a = repeat 0%float (length a)).
  { induction a as [|x a IH]; [reflexivity|].
    cbn [forallb] in H; apply andb_true_iff in H as [Hx Ha].
    cbn [map length repeat]; rewrite (IH Ha).
    unfold np.nan_to_zero; now rewrite Hx. }
  assert (Hf : filter (fun x => negb (is_nan x)) a = []).
  { induction a as [|x a IH]; [reflexivity|].
    cbn [forallb] in H; apply andb_true_iff in H as [Hx Ha].
    cbn [filter]; rewrite Hx; cbn [negb]; apply IH; auto.
    cbn [map length repeat] in Hz; congruence. }
  rewrite Hz, Hf, sum_zeros; reflexivity.
Qed.

Lemma sub_nan_l (x y : float) : is_nan x = true -> is_nan (x - y) = true.
Proof.
  rewrite !is_nan_Prim2SF, sub_spec; intros H; now rewrite H.
Qed.

Lemma mul_nan_l (x y : float) : is_nan x = true -> is_nan (x * y) = true.
Proof.
  rewrite !is_nan_Prim2SF, mul_spec; intros H; now rewrite H.
Qed.

(** X15.  Centring data whose rows all have the width of the first one
    gives a mean with one entry per column and centred data of the shape
    of the data, whatever [errors] is; an undefined entry of the data is
    undefined in the centred data, and a column with no defined entry has
    an undefined mean. *)
Theorem mean_subtracted_data_shape_and_gaps (data : matrix)
  (errors : option matrix) :
  Forall (fun row => length row = np.shape1 data) data ->
  length (snd (mean_subtracted_data data errors)) = np.shape1 data /\
  same_shape (fst (mean_subtracted_data data errors)) data = true /\
  (forall i j row x,
      nth_error data i = Some row -> nth_error row j = Some x ->
      is_nan x = true ->
      exists row' y,
        nth_error (fst (mean_subtracted_data data errors)) i = Some row' /\
        nth_error row' j = Some y /\ is_nan y = true) /\
  (forall j, j < np.shape1 data ->
      forallb is_nan (np.column j data) = true ->
      exists m,
        nth_error (snd (mean_subtracted_data data errors)) j = Some m /\
        is_nan m = true).
Proof.
  intros Hrect; unfold mean_subtracted_data; cbn [fst snd].
  assert (Hmean : length (np.nanmean_axis0 data) = np.shape1 data).
  { unfold np.nanmean_axis0; now rewrite length_map, transpose_length. }
  split; [exact Hmean|].
  rewrite Forall_forall in Hrect.
  split; [|split].
  - apply same_shape_intro.
    + unfold np.sub_rows; apply length_map.
    + intros i r r' Hr Hr'; unfold np.sub_rows in Hr.
      rewrite nth_error_map, Hr' in Hr; cbn [option_map] in Hr.
      assert (E : r = map2 PrimFloat.sub r' (np.nanmean_axis0 data))
        by congruence.
      rewrite E, map2_length, Hmean.
      rewrite (Hrect r' (nth_error_In _ _ Hr')); apply Nat.min_id.
  - intros i j row x Hrow Hx Hnan.
    assert (Hj : j < length (np.nanmean_axis0 data)).
    { rewrite Hmean, <- (Hrect row (nth_error_In _ _ Hrow)).
      apply nth_error_Some; congruence. }
    destruct (nth_error (np.nanmean_axis0 data) j) as [m|] eqn:Hm;
      [|apply nth_error_None in Hm; lia].
    exists (map2 PrimFloat.sub row (np.nanmean_axis0 data)), (x - m)%float.
    split; [|split].
    + unfold np.sub_rows; rewrite nth_error_map, Hrow; reflexivity.
    + exact (map2_nth_error _ _ _ _ _ _ Hx Hm).
    + now apply sub_nan_l.
  - intros j Hj Hcol.
    exists (np.nanmean (np.column j data)); split; [|now apply nanmean_all_nan].
    unfold np.nanmean_axis0, np.transpose.
    rewrite map_map, nth_error_map, nth_error_seq.
    replace (j <? np.shape1 data) with true
      by (symmetry; apply Nat.ltb_lt; exact Hj).
    reflexivity.
Qed.

Lemma nan_rounds residuals_sq breakdown_point robust_function c_sq s n :
  is_nan s = true ->
  is_nan
    (Nat.iter n
       (scale_round_spec residuals_sq breakdown_point robust_function c_sq) s)
  = true.
Proof.
  intros H; induction n as [|n IH]; [exact H|].
  cbn [Nat.iter]; unfold scale_round_spec at 1; now apply mul_nan_l.
Qed.

(** X16.  A bootstrap asked for a seed of no observation, when it returns,
    returns a state whose scale² and three running statistics are all
    undefined: they are means over no residual. *)
Theorem bootstrap_with_empty_seed (data : matrix) (errors : option matrix)
  (amount_of_eigen : nat) (breakdown_point : float)
  (robust_function robust_derivative : float -> float -> float)
  (c_sq : float) (st : eigen_system) :
  initalise_robust_pca_param data errors amount_of_eigen 0 breakdown_point
    robust_function robust_derivative c_sq = Ok st ->
  is_nan (es_sig2 st) = true /\
  is_nan (fst (fst (es_vqu st))) = true /\
  is_nan (snd (fst (es_vqu st))) = true /\
  is_nan (snd (es_vqu st)) = true.
Proof.
  rewrite initalise_robust_pca_param_eq; cbv zeta.
  destruct (initalise_eigensystem _) as [[vectors values]|]; [|discriminate].
  cbn [bind firstn]; unfold np.sub_rows at 1; cbn [map].
  destruct (get_mag_residuals_sq _ _ _) as [r|] eqn:Hr; [|discriminate].
  cbn [bind]; intros H.
  assert (Hnil : r = []).
  { revert Hr; unfold get_mag_residuals_sq.
    destruct (get_residual _ _) as [res|] eqn:Hres; [|discriminate].
    cbn [bind].
    destruct (mag_residual_sq res errors) as [[after out]|] eqn:Hm;
      [|discriminate].
    cbn [bind]; intros Hout.
    destruct (mag_residual_sq_one_per_row _ _ _ _ Hm) as (_ & Hlen & _).
    pose proof (get_residual_rows _ _ _ Hres) as Hrows.
    cbn [length] in Hrows.
    assert (E : r = out) by congruence.
    rewrite E; apply length_zero_iff_nil; congruence. }
  subst r.
  assert (E : st = {| es_U := map (firstn amount_of_eigen) vectors;
                      es_m := np.nanmean_axis0 data;
                      es_W := firstn amount_of_eigen values;
                      es_vqu := initalise_vqu []
                                  (initalise_scale_using_residuals_sq []
                                     breakdown_point amount_of_eigen
                                     robust_function c_sq)
                                  robust_derivative c_sq;
                      es_sig2 := initalise_scale_using_residuals_sq []
                                   breakdown_point amount_of_eigen
                                   robust_function c_sq |}) by congruence.
  subst st; cbn [es_sig2 es_vqu]; split.
  - rewrite initalise_scale_as_rounds; now apply nan_rounds.
  - unfold initalise_vqu; cbn [np.vdiv_scalar map map2 fst snd].
    repeat split; reflexivity.
Qed.

(** ** Runs that overrun the buffers, and runs without a step *)

Lemma for_each_app {A S} (body : S -> A -> result S) (l1 l2 : list A) acc :
  for_each body (l1 ++ l2) acc =
  (acc' <- for_each body l1 acc ;; for_each body l2 acc').
Proof.
  revert acc; induction l1 as [|x l1 IH]; intros acc; [reflexivity|].
  cbn [app for_each]; destruct (body acc x); cbn [bind]; auto.
Qed.

Section PassLoopEdges.

Variable pca_function : pca_function_t.
Variables alpha delta shape : float.
Variable save_amount : Z.
Variable es0 : eigen_system.

Hypothesis pca_keeps_W : forall es x a e d c,
  length (es_W (pca_function es x a e d c)) = length (es_W es).

Lemma update_step_overflow done (data : matrix) errors sp :
  Z.of_nat (length done) = save_amount ->
  update_step pca_function alpha delta shape save_amount data errors
    (loop_state_after pca_function alpha delta shape save_amount es0 done) sp =
  Raise IndexError.
Proof.
  intros Hfull; unfold update_step, track_eigensystem_updates.
  destruct done as [|i done].
  - simpl in Hfull; subst save_amount; reflexivity.
  - cbn [loop_state_after ls_counter ls_tracked ls_es ls_allocated].
    replace (length (i :: done) =? 0) with false by reflexivity.
    cbn [bind]; unfold recorded_spec; cbn [tr_W].
    rewrite pre_states_length.
    replace (Z.to_nat save_amount - length (i :: done)) with 0 by lia.
    unfold setrow.
    replace (nth_error _ (length (i :: done))) with (@None vector);
      [reflexivity|].
    symmetry; apply nth_error_None.
    rewrite length_app, length_map, pre_states_length; simpl; lia.
Qed.

Lemma update_step_negative (data : matrix) errors sp :
  (save_amount < 0)%Z ->
  update_step pca_function alpha delta shape save_amount data errors
    (loop_state_after pca_function alpha delta shape save_amount es0 []) sp =
  Raise ValueError.
Proof.
  intros Hneg; unfold update_step, track_eigensystem_updates.
  cbn [loop_state_after ls_counter Nat.eqb length].
  unfold initialise_tracked_eigen_updates.
  apply Z.ltb_lt in Hneg; now rewrite Hneg.
Qed.

Lemma for_each_overflow n (data : matrix) errors indices done :
  length data = n -> loop_errors n errors ->
  Forall (fun sp => sp < n) indices ->
  (Z.of_nat (length done) <= save_amount)%Z ->
  (save_amount < Z.of_nat (length done + length indices))%Z ->
  for_each
    (update_step pca_function alpha delta shape save_amount data errors)
    indices
    (loop_state_after pca_function alpha delta shape save_amount es0 done) =
  Raise IndexError.
Proof.
  intros Hn Herr Hidx Hlow Hhigh.
  set (k := Z.to_nat save_amount - length done).
  rewrite <- (firstn_skipn k indices), for_each_app.
  assert (Hk : length (firstn k indices) = k)
    by (rewrite length_firstn; subst k; lia).
  rewrite (for_each_update_step pca_function alpha delta shape save_amount
             es0 pca_keeps_W n data errors (firstn k indices) done Hn Herr).
  - cbn [bind].
    destruct (skipn k indices) as [|sp rest] eqn:Hrest.
    + exfalso.
      assert (Hlen : length (skipn k indices) = 0) by now rewrite Hrest.
      rewrite length_skipn in Hlen; subst k; lia.
    + cbn [for_each]; rewrite update_step_overflow; [reflexivity|].
      rewrite length_app, length_map, Hk; subst k; lia.
  - apply Forall_forall; intros sp Hsp.
    rewrite Forall_forall in Hidx; apply Hidx.
    rewrite <- (firstn_skipn k indices); apply in_or_app; now left.
  - rewrite Hk; subst k; lia.
Qed.

Lemma run_passes_overflow number_of_passes :
  forall n start done data errors rnd,
    length data = n -> 0 < n -> loop_errors n errors ->
    (Z.of_nat (length done) <= save_amount)%Z ->
    (save_amount
     < Z.of_nat (length done + update_count number_of_passes start n))%Z ->
    run_passes pca_function alpha delta shape save_amount n
      number_of_passes start
      (loop_state_after pca_function alpha delta shape save_amount es0 done)
      data errors rnd = Raise IndexError.
Proof.
  induction number_of_passes as [|p IH];
    intros n start done data errors rnd Hn Hpos Herr Hlow Hhigh.
  - simpl in Hhigh; lia.
  - cbn [run_passes].
    assert (Hcount : update_count (S p) start n =
                     (n - start) + update_count p 0 n)
      by (destruct p; simpl; lia).
    assert (Hrange : Forall (fun sp => sp < n) (range start n)).
    { unfold range; apply Forall_forall; intros sp Hsp.
      apply in_seq in Hsp; lia. }
    destruct (Z_lt_le_dec save_amount
                (Z.of_nat (length done + (n - start)))) as [Hover|Hroom].
    + rewrite (for_each_overflow n data errors (range start n) done); auto.
      now rewrite range_length.
    + rewrite (for_each_update_step pca_function alpha delta shape save_amount
                 es0 pca_keeps_W n data errors (range start n) done);
        auto; [|rewrite range_length; lia].
      cbn [bind].
      rewrite randomise_data_order_ok by (rewrite Hn; apply Herr).
      cbn [bind].
      destruct (randomise_spec_keeps_fit n data errors rnd Hn Hpos Herr)
        as [Hn' Herr'].
      destruct (randomise_spec data errors rnd) as [[data1 errors1] rnd1].
      simpl in Hn', Herr'.
      apply IH; auto.
      * rewrite length_app, length_map, range_length; lia.
      * rewrite length_app, length_map, range_length; lia.
Qed.

Lemma run_passes_negative number_of_passes :
  forall n start data errors rnd,
    length data = n -> 0 < n -> loop_errors n errors ->
    (save_amount < 0)%Z ->
    0 < update_count number_of_passes start n ->
    run_passes pca_function alpha delta shape save_amount n
      number_of_passes start
      (loop_state_after pca_function alpha delta shape save_amount es0 [])
      data errors rnd = Raise ValueError.
Proof.
  induction number_of_passes as [|p IH];
    intros n start data errors rnd Hn Hpos Herr Hneg Hsteps.
  - simpl in Hsteps; lia.
  - cbn [run_passes].
    assert (Hcount : update_count (S p) start n =
                     (n - start) + update_count p 0 n)
      by (destruct p; simpl; lia).
    unfold range; destruct (n - start) as [|c] eqn:Hc.
    + cbn [seq for_each bind].
      rewrite randomise_data_order_ok by (rewrite Hn; apply Herr).
      cbn [bind].
      destruct (randomise_spec_keeps_fit n data errors rnd Hn Hpos Herr)
        as [Hn' Herr'].
      destruct (randomise_spec data errors rnd) as [[data1 errors1] rnd1].
      simpl in Hn', Herr'.
      apply IH; auto; lia.
    + cbn [seq for_each]; now rewrite update_step_negative.
Qed.

End PassLoopEdges.

Lemma run_passes_final_order pca_function alpha delta shape save_amount
  number_of_passes :
  forall n start st data errors rnd st' data' errors' rnd',
    length data = n -> 0 < n -> loop_errors n errors ->
    run_passes pca_function alpha delta shape save_amount n
      number_of_passes start st data errors rnd =
    Ok (st', data', errors', rnd') ->
    (data', errors', rnd') = order_at_pass number_of_passes (data, errors, rnd).
Proof.
  induction number_of_passes as [|p IH];
    intros n start st data errors rnd st' data' errors' rnd' Hn Hpos Herr.
  - cbn [run_passes]; intros H; inversion H; reflexivity.
  - cbn [run_passes].
    destruct (for_each _ _ st) as [st1|]; [|discriminate]; cbn [bind].
    rewrite randomise_data_order_ok by (rewrite Hn; apply Herr).
    cbn [bind]; rewrite order_at_pass_succ.
    destruct (randomise_spec_keeps_fit n data errors rnd Hn Hpos Herr)
      as [Hn' Herr'].
    destruct (randomise_spec data errors rnd) as [[data1 errors1] rnd1].
    simpl in Hn', Herr'.
    now apply IH.
Qed.

Lemma order_at_pass_generator k n data errors rnd :
  length data = n ->
  snd (order_at_pass k (data, errors, rnd)) =
  Nat.iter k (fun r => after_draw r n) rnd.
Proof.
  intros Hn; revert data errors rnd Hn.
  induction k as [|k IH]; intros data errors rnd Hn; [reflexivity|].
  rewrite order_at_pass_succ; unfold randomise_spec.
  rewrite IH.
  - rewrite Hn; replace (S k) with (k + 1) by lia.
    now rewrite iter_add.
  - rewrite reindex_length; unfold drawn_permutation.
    now rewrite shuffled_indices_length.
Qed.

Section DriverEdges.

Variables (data : matrix) (errors : option matrix).
Variables (amount_of_eigen amount_to_initalise number_of_iterations : nat).
Variables (forget_param : option float) (breakdown_point memory c_sq : float).
Variables (random_seed : Z) (rnd : np_random).
Variables (clean : matrix) (clean_errors : option matrix).
Variable alpha : float.
Variables (data0 : matrix) (errors0 : py_errors) (rnd0 : np_random).
Variable es0 : eigen_system.

Hypothesis iterate_PCA_keeps_W : forall es x a e d c,
  length (es_W (iterate_PCA es x a e d c)) = length (es_W es).
Hypothesis iterate_PCA_with_data_gaps_keeps_W : forall es x a e d c,
  length (es_W (iterate_PCA_with_data_gaps es x a e d c)) = length (es_W es).

Hypothesis sanitised :
  check_and_make_data_finite data errors = (clean, clean_errors).
Hypothesis some_data : 0 < length clean.
Hypothesis mask_fits :
  match clean_errors with
  | Some a => length clean <= length a
  | None => True
  end.
Hypothesis forgetting :
  resolved_forget_param forget_param (length clean) memory = Ok alpha.
Hypothesis randomised :
  randomise_spec clean (as_py_errors clean_errors)
    {| bit_generator := bit_generator rnd; seed := SeedOverwritten 1 |} =
  (data0, errors0, rnd0).
Hypothesis bootstrapped :
  initalise_robust_pca_param data0 (as_error_map errors0) amount_of_eigen
    amount_to_initalise breakdown_point cauchy_like_function
    derivate_of_cauchy_like_function default_c_sq = Ok es0.

Lemma forgetting_resolved :
  match forget_param with
  | None => forget_parameter (np.shape0 clean) memory
  | Some a => Ok a
  end = Ok alpha.
Proof. exact forgetting. Qed.

Lemma first_randomisation :
  randomise_data_order clean (as_py_errors clean_errors)
    {| bit_generator := bit_generator rnd; seed := SeedOverwritten 1 |} =
  Ok (data0, errors0, rnd0).
Proof.
  rewrite randomise_data_order_ok, randomised; [reflexivity|].
  destruct clean_errors; simpl; auto; simpl in mask_fits; lia.
Qed.

Lemma first_order :
  length data0 = length clean /\
  loop_errors (length clean) (loop_mask (length clean) errors0) /\
  rnd0 = after_draw
           {| bit_generator := bit_generator rnd; seed := SeedOverwritten 1 |}
           (length clean).
Proof.
  revert randomised; unfold randomise_spec; cbv zeta; intros H.
  injection H; intros E2 E1 E0.
  symmetry in E0, E1, E2.
  clear H; split; [|split; [|exact E2]].
  - rewrite E0, reindex_length; unfold drawn_permutation.
    now rewrite shuffled_indices_length.
  - rewrite E1; destruct clean_errors as [a|]; cbn [as_py_errors loop_mask].
    + split; [discriminate|]; unfold errors_fit.
      rewrite reindex_length; unfold drawn_permutation.
      rewrite shuffled_indices_length; lia.
    + split; [discriminate|]; unfold errors_fit; lia.
Qed.

Lemma run_robust_pca_state_as_passes :
  run_robust_pca_state data errors amount_of_eigen amount_to_initalise
    number_of_iterations forget_param breakdown_point memory c_sq
    random_seed rnd =
  run_passes (selected_updater errors0) alpha breakdown_point c_sq
    (save_amount_of (length clean) number_of_iterations amount_to_initalise)
    (length clean) number_of_iterations amount_to_initalise
    (loop_state_after (selected_updater errors0) alpha breakdown_point c_sq
       (save_amount_of (length clean) number_of_iterations amount_to_initalise)
       es0 [])
    data0 (loop_mask (length clean) errors0) rnd0.
Proof.
  unfold run_robust_pca_state; rewrite sanitised, forgetting_resolved.
  cbn [bind]; rewrite first_randomisation.
  cbn [bind]; rewrite bootstrapped; cbn [bind].
  now destruct errors0.
Qed.

Lemma selected_updater_keeps_W' es x a e d c :
  length (es_W (selected_updater errors0 es x a e d c)) = length (es_W es).
Proof.
  destruct errors0; simpl;
    auto using iterate_PCA_keeps_W, iterate_PCA_with_data_gaps_keeps_W.
Qed.

(** X10.  With a seed size above N + 1 and two or more passes a run whose
    forgetting factor is defined (it is given, or N × memory is not zero)
    cannot finish: the later passes take more steps than the buffers have
    rows.  It raises [IndexError] at the first step past the last row, or
    [ValueError] at its first step when the requested number of rows,
    N × number_of_iterations − amount_to_initalise + 1, is negative;
    whether diagnostics were asked for makes no difference. *)
Theorem run_robust_pca_overruns_buffers (save_extra_param : bool) :
  length clean + 1 < amount_to_initalise ->
  2 <= number_of_iterations ->
  run_robust_pca data errors amount_of_eigen amount_to_initalise
    number_of_iterations forget_param breakdown_point memory
    save_extra_param c_sq random_seed rnd =
  Raise (if (save_amount_of (length clean) number_of_iterations
               amount_to_initalise <? 0)%Z
         then ValueError else IndexError).
Proof.
  intros Hseed Hpasses.
  destruct first_order as (Hlen & Herr & _).
  unfold run_robust_pca; rewrite run_robust_pca_state_as_passes.
  assert (Hcount : update_count number_of_iterations amount_to_initalise
                     (length clean)
                   = (number_of_iterations - 1) * length clean).
  { destruct number_of_iterations as [|p]; [lia|].
    cbn [update_count]; replace (S p - 1) with p by lia; lia. }
  destruct (save_amount_of (length clean) number_of_iterations
              amount_to_initalise <? 0)%Z eqn:Hsa.
  - apply Z.ltb_lt in Hsa.
    rewrite run_passes_negative; auto using selected_updater_keeps_W'.
    rewrite Hcount; nia.
  - apply Z.ltb_ge in Hsa.
    rewrite run_passes_overflow; auto using selected_updater_keeps_W'.
    cbn [length Nat.add]; rewrite Hcount.
    unfold save_amount_of in *; nia.
Qed.

(** X11.  A run with no pass, or with one pass and a seed size of at least
    N, whose forgetting factor is defined (it is given, or N × memory is not
    zero) makes no update step: it returns the bootstrapped state untouched
    and, when diagnostics are asked for, the empty dictionary the tracking
    started from. *)
Theorem run_robust_pca_without_steps :
  number_of_iterations = 0 \/
  (number_of_iterations = 1 /\ length clean <= amount_to_initalise) ->
  exists rnd',
    run_robust_pca data errors amount_of_eigen amount_to_initalise
      number_of_iterations forget_param breakdown_point memory true c_sq
      random_seed rnd = Ok (es0, Some EmptyDict, rnd') /\
    run_robust_pca data errors amount_of_eigen amount_to_initalise
      number_of_iterations forget_param breakdown_point memory false c_sq
      random_seed rnd = Ok (es0, None, rnd').
Proof.
  intros Hnone.
  destruct first_order as (Hlen & [_ Hfit] & _).
  unfold run_robust_pca; rewrite run_robust_pca_state_as_passes.
  destruct Hnone as [Hp | [Hp Hseed]]; rewrite Hp.
  - eexists; split; reflexivity.
  - rewrite run_passes_no_steps; auto; [|now rewrite Hlen].
    eexists; split; reflexivity.
Qed.

(** X13.  When the forgetting factor is defined (it is given, or
    N × memory is not zero) and the decomposition of the centred, normalised
    data, in its order after the first randomisation, raises [LinAlgError],
    the whole run raises the [TypeError] with the sanitising message,
    whatever the number of passes and whether or not diagnostics were asked
    for. *)
Theorem run_robust_pca_decomposition_failure (save_extra_param : bool) :
  svd (np.div_scalar (np.sub_rows data0 (np.nanmean_axis0 data0))
         (sqrt (np.of_nat (length data0)))) = Raise LinAlgError ->
  run_robust_pca data errors amount_of_eigen amount_to_initalise
    number_of_iterations forget_param breakdown_point memory
    save_extra_param c_sq random_seed rnd = Raise (TypeError svd_message).
Proof.
  intros Hsvd.
  unfold run_robust_pca, run_robust_pca_state.
  rewrite sanitised, forgetting_resolved; cbn [bind].
  rewrite first_randomisation; cbn [bind].
  rewrite initalise_robust_pca_param_eq; cbv zeta.
  unfold initalise_eigensystem, get_eigen_system, do_initial_SVD, np.shape0.
  unfold np.sub_rows at 1 2; rewrite length_map.
  fold (np.sub_rows data0 (np.nanmean_axis0 data0)).
  now rewrite Hsvd.
Qed.

Lemma after_draws_keep_seed k n r :
  seed (Nat.iter k (fun r => after_draw r n) r) = seed r.
Proof. induction k as [|k IH]; [reflexivity|exact IH]. Qed.

Lemma run_robust_pca_generator_after (save_extra_param : bool)
  (es : eigen_system) (tr : option tracking) (rnd' : np_random) :
  run_robust_pca data errors amount_of_eigen amount_to_initalise
    number_of_iterations forget_param breakdown_point memory
    save_extra_param c_sq random_seed rnd = Ok (es, tr, rnd') ->
  rnd' =
  Nat.iter (S number_of_iterations) (fun r => after_draw r (length clean))
    {| bit_generator := bit_generator rnd; seed := SeedOverwritten 1 |}
  /\ seed rnd' = SeedOverwritten 1.
Proof.
  clear bootstrapped forgetting.
  destruct first_order as (Hlen & Herr & Hrnd0).
  unfold run_robust_pca, run_robust_pca_state.
  rewrite sanitised.
  destruct (match forget_param with
            | None => forget_parameter (np.shape0 clean) memory
            | Some a => Ok a
            end) as [factor|]; [|discriminate].
  cbn [bind]; rewrite first_randomisation; cbn [bind].
  destruct (initalise_robust_pca_param _ _ _ _ _ _ _ _) as [es1|];
    [|discriminate].
  cbn [bind].
  assert (Hselect :
    (match errors0 with
     | ErrNone => (iterate_PCA, ErrNoneList (np.shape0 clean))
     | _ => (iterate_PCA_with_data_gaps, errors0)
     end) = (selected_updater errors0, loop_mask (length clean) errors0))
    by (destruct errors0; reflexivity).
  rewrite Hselect; clear Hselect.
  destruct (run_passes _ _ _ _ _ _ _ _ _ _ _ _)
    as [[[[st1 d1] e1] r1]|] eqn:Hrun; [|discriminate].
  cbn [bind].
  apply run_passes_final_order in Hrun; auto.
  assert (Hr1 : r1 = Nat.iter (S number_of_iterations)
                       (fun r => after_draw r (length clean))
                       {| bit_generator := bit_generator rnd;
                          seed := SeedOverwritten 1 |}).
  { transitivity (snd (order_at_pass number_of_iterations
                         (data0, loop_mask (length clean) errors0, rnd0)));
      [exact (f_equal snd Hrun)|].
    rewrite (order_at_pass_generator _ (length clean)) by exact Hlen.
    rewrite Hrnd0; replace (S number_of_iterations)
      with (number_of_iterations + 1) by lia.
    now rewrite iter_add. }
  intros H.
  assert (E : rnd' = r1) by (destruct save_extra_param; congruence).
  rewrite E, Hr1; split; [reflexivity|apply after_draws_keep_seed].
Qed.

End DriverEdges.

(** X12.  A run that returns has drawn number_of_iterations + 1
    permutations from the global generator, one before the bootstrap and
    one after every pass, the last pass included, and leaves the attribute
    [np.random.seed] overwritten with 1. *)
Theorem run_robust_pca_leaves_generator (data : matrix)
  (errors : option matrix)
  (amount_of_eigen amount_to_initalise number_of_iterations : nat)
  (forget_param : option float) (breakdown_point memory : float)
  (save_extra_param : bool) (c_sq : float) (random_seed : Z)
  (rnd : np_random) (clean : matrix) (clean_errors : option matrix)
  (es : eigen_system) (tr : option tracking) (rnd' : np_random) :
  check_and_make_data_finite data errors = (clean, clean_errors) ->
  0 < length clean ->
  match clean_errors with
  | Some a => length clean <= length a
  | None => True
  end ->
  run_robust_pca data errors amount_of_eigen amount_to_initalise
    number_of_iterations forget_param breakdown_point memory
    save_extra_param c_sq random_seed rnd = Ok (es, tr, rnd') ->
  rnd' =
  Nat.iter (S number_of_iterations) (fun r => after_draw r (length clean))
    {| bit_generator := bit_generator rnd; seed := SeedOverwritten 1 |}
  /\ seed rnd' = SeedOverwritten 1.
Proof.
  intros Hclean Hpos Hfit Hrun.
  destruct (randomise_spec clean (as_py_errors clean_errors)
              {| bit_generator := bit_generator rnd;
                 seed := SeedOverwritten 1 |})
    as [[data0 errors0] rnd0] eqn:Hrand.
  exact (run_robust_pca_generator_after data errors amount_of_eigen
           amount_to_initalise number_of_iterations forget_param
           breakdown_point memory c_sq random_seed rnd clean clean_errors
           data0 errors0 rnd0 Hclean Hpos Hfit Hrand save_extra_param
           es tr rnd' Hrun).
Qed.

(** X17.  A run that is given no forgetting factor computes it from the
    number N of sanitised observations and [memory] before anything else:
    when N × memory is zero it raises [ZeroDivisionError], whatever the
    other arguments are. *)
Theorem run_robust_pca_zero_memory (data : matrix) (errors : option matrix)
  (amount_of_eigen amount_to_initalise number_of_iterations : nat)
  (breakdown_point memory : float) (save_extra_param : bool) (c_sq : float)
  (random_seed : Z) (rnd : np_random) (clean : matrix)
  (clean_errors : option matrix) :
  check_and_make_data_finite data errors = (clean, clean_errors) ->
  is_zero (np.of_nat (length clean) * memory) = true ->
  run_robust_pca data errors amount_of_eigen amount_to_initalise
    number_of_iterations None breakdown_point memory save_extra_param c_sq
    random_seed rnd = Raise ZeroDivisionError.
Proof.
  intros Hclean Hzero.
  unfold run_robust_pca, run_robust_pca_state; rewrite Hclean.
  unfold forget_parameter, np.shape0; cbv zeta.
  now rewrite Hzero.
Qed.


End Robustpca.

(** ** The functions run on concrete data *)

Lemma rotate_shuffle_permutes (g : nat) (l : list nat) :
  Permutation l (fst (rotate_shuffle g l)).
Proof.
  unfold rotate_shuffle; simpl.
  rewrite <- (firstn_skipn (g mod length l) l) at 1.
  apply Permutation_app_comm.
Qed.

(** Two datasets with the same seed row, [1], bootstrap with seed size 1 to
    different means and different eigenvalues. *)
Lemma seed_rows_do_not_determine_bootstrap :
  firstn 1 [[1%float]; [3%float]] = firstn 1 [[1%float]; [5%float]] /\
  exists st st',
    initalise_robust_pca_param svd_one_column [[1%float]; [3%float]] None
      1 1 0.5%float rho_example rho_derivative_example default_c_sq = Ok st /\
    initalise_robust_pca_param svd_one_column [[1%float]; [5%float]] None
      1 1 0.5%float rho_example rho_derivative_example default_c_sq = Ok st' /\
    es_m st = [2%float] /\ es_m st' = [3%float] /\
    es_m st <> es_m st' /\ es_W st <> es_W st'.
Proof.
  split; [reflexivity|].
  eexists _, _; split; [vm_compute; reflexivity|].
  split; [vm_compute; reflexivity|].
  split; [reflexivity|]; split; [reflexivity|]; split; intros E.
  - apply (f_equal (fun l => (hd 0 l <? 2.5)%float)) in E; discriminate E.
  - apply (f_equal (fun l => (hd 0 l <? 2)%float)) in E; discriminate E.
Qed.

Lemma bootstrap_reads_whole_data_witness :
  exists st,
    initalise_robust_pca_param svd_one_column [[1%float]; [3%float]] None
      1 1 0.5%float rho_example rho_derivative_example default_c_sq = Ok st /\
    es_m st = np.nanmean_axis0 [[1%float]; [3%float]].
Proof.
  eexists.
  refine (let H := _ in
          conj H (proj1 (bootstrap_reads_whole_data svd_one_column
                           _ _ _ _ _ _ _ _ _ H))).
  vm_compute; reflexivity.
Defined.

(** The run of 1000 observations with seed size 200 and 5 passes makes 4800
    update steps, not 4801: the counter ends at 4800 and the spying updater
    has been handed 4800 observations (the mean vector it extends starts
    with one entry), while the buffers have 4801 rows. *)
Lemma run_1000_200_5_makes_4800_steps :
  match
    run_robust_pca_state svd_one_column rho_example rho_derivative_example
      spy_update spy_update keep_data nat rotate_shuffle
      data1000 None 1 200 5 None 0.5%float 1%float default_c_sq 1
      {| bit_generator := 7; seed := SeedFunction |}
  with
  | Ok (st, _, _, _) =>
      (ls_counter st =? 4800) && negb (ls_counter st =? 4801)
      && (length (es_m (ls_es st)) =? 1 + 4800)
      && match tracked_rows (ls_tracked st) with
         | Some rows => rows =? 4801
         | None => false
         end
  | Raise _ => false
  end = true.
Proof. vm_compute; reflexivity. Qed.

Lemma update_steps_and_buffer_rows_witness :
  1 <= length data3 /\ 1 <= 2 /\ 1 < length data3 /\
  exists st d e r,
    run_robust_pca_state svd_one_column rho_example rho_derivative_example
      spy_update spy_update keep_data nat rotate_shuffle
      data3 None 1 1 2 None 0.5%float 1%float default_c_sq 1
      {| bit_generator := 1; seed := SeedFunction |} = Ok (st, d, e, r) /\
    ls_counter st = 3 * 2 - 1 /\
    tracked_rows (ls_tracked st) = Some (3 * 2 - 1 + 1) /\
    ls_allocated st = 1.
Proof.
  split; [simpl; lia|]; split; [lia|]; split; [simpl; lia|].
  edestruct (update_steps_and_buffer_rows svd_one_column rho_example
               rho_derivative_example spy_update spy_update keep_data nat
               rotate_shuffle rotate_shuffle_permutes
               data3 None 1 1 2 None 0.5%float 1%float default_c_sq 1%Z
               {| bit_generator := 1; seed := SeedFunction |} data3 None)
    as (st & d & e & r & Hrun & Hcount & _ & Hrows & Halloc & _ & _);
    try (intros; reflexivity); try (simpl; lia).
  exists st, d, e, r; auto.
Defined.



(** C3 (code bug).  The run assigns 1 over the attribute [np.random.seed]
    and never seeds the generator.  Whatever the collaborators and inputs,
    the [random_seed] argument has no effect on the result; and two runs on
    the same data with the same configuration and the same [random_seed],
    one after the other in the same process, process the observations in
    different orders (the spying updater lists them after the mean, 2). *)
Theorem random_seed_is_ignored :
  (forall svd rho rho' iterate_PCA iterate_PCA_with_data_gaps
          check_and_make_data_finite G shuffle data errors amount_of_eigen
          amount_to_initalise number_of_iterations forget_param
          breakdown_point memory save_extra_param c_sq rnd
          random_seed random_seed',
      run_robust_pca svd rho rho' iterate_PCA iterate_PCA_with_data_gaps
        check_and_make_data_finite G shuffle data errors amount_of_eigen
        amount_to_initalise number_of_iterations forget_param breakdown_point
        memory save_extra_param c_sq random_seed rnd =
      run_robust_pca svd rho rho' iterate_PCA iterate_PCA_with_data_gaps
        check_and_make_data_finite G shuffle data errors amount_of_eigen
        amount_to_initalise number_of_iterations forget_param breakdown_point
        memory save_extra_param c_sq random_seed' rnd)
  /\ exists es es' rnd rnd',
      run_robust_pca svd_one_column rho_example rho_derivative_example
        spy_update spy_update keep_data nat rotate_shuffle
        data3 None 1 1 1 None 0.5%float 1%float false default_c_sq
        7 {| bit_generator := 0; seed := SeedFunction |} = Ok (es, None, rnd) /\
      run_robust_pca svd_one_column rho_example rho_derivative_example
        spy_update spy_update keep_data nat rotate_shuffle
        data3 None 1 1 1 None 0.5%float 1%float false default_c_sq
        7 rnd = Ok (es', None, rnd') /\
      seed nat rnd = SeedOverwritten 1 /\
      es_m es = [2%float; 2%float; 3%float] /\
      es_m es' = [2%float; 1%float; 2%float] /\
      es_m es <> es_m es'.
Proof.
  split; [reflexivity|].
  eexists _, _, _, _; split; [vm_compute; reflexivity|].
  split; [vm_compute; reflexivity|].
  split; [reflexivity|]; split; [reflexivity|]; split; [reflexivity|].
  intros E.
  apply (f_equal (fun l => (nth 1 l 0 <? 1.5)%float)) in E; discriminate E.
Qed.

(** With as many kept eigenvectors as features the seed residuals are all
    zero: the bootstrap returns a state whose scale² is NaN, and the
    running statistics computed from it are NaN as well. *)
Lemma zero_residuals_bootstrap_to_nan_scale :
  exists st,
    initalise_robust_pca_param svd_one_column data3 None 1 3 0.5%float
      rho_example rho_derivative_example default_c_sq = Ok st /\
    is_nan (es_sig2 st) = true /\
    is_nan (fst (fst (es_vqu st))) = true.
Proof.
  eexists; split; [vm_compute; reflexivity|].
  split; reflexivity.
Qed.

Lemma degenerate_scale_is_returned_witness :
  0 <= 1 /\
  exists st,
    initalise_robust_pca_param svd_one_column data3 None 1 3 0.5%float
      rho_example rho_derivative_example default_c_sq = Ok st /\
    degenerate_scale (es_sig2 st) = true.
Proof.
  split; [lia|].
  edestruct (degenerate_scale_is_returned svd_one_column data3 None 1 3
               0.5%float rho_example rho_derivative_example default_c_sq)
    as (st & Hst & Hdeg & _).
  - vm_compute; reflexivity.
  - vm_compute; reflexivity.
  - apply Nat.le_0_l.
  - reflexivity.
  - exists st; split; [exact Hst|exact Hdeg].
Defined.

(** An array with an infinite entry is not finite; with a decomposition
    that returns on it, as numpy's does, [do_initial_SVD] returns as well
    and no exception tells the caller about the value.  With a NaN entry
    the decomposition raises, and so does [do_initial_SVD]. *)
Lemma infinite_entry_is_not_rejected :
  np.finite_all [[1%float]; [infinity]] = false /\
  (exists vh s,
      svd_one_column [[1%float]; [infinity]] = Ok ([], s, vh) /\
      do_initial_SVD svd_one_column [[1%float]; [infinity]] = Ok (vh, s)) /\
  do_initial_SVD svd_one_column [[1%float]; [nan]] =
  Raise (TypeError svd_message).
Proof.
  split; [reflexivity|]; split; [|reflexivity].
  eexists _, _; split; reflexivity.
Qed.

Lemma mag_residual_sq_masked_witness :
  same_shape [[1%float; 2%float; 3%float]] [[1%float; 0%float; 1%float]] = true /\
  exists after,
    mag_residual_sq [[1%float; 2%float; 3%float]]
      (Some ([[1%float; 0%float; 1%float]] ++ [[0%float; 0%float; 0%float]])) =
    Ok (after, [10%float]).
Proof.
  refine (let H := eq_refl in
          conj H (proj1 (mag_residual_sq_masked
                           [[1%float; 2%float; 3%float]]
                           [[1%float; 0%float; 1%float]]
                           [[0%float; 0%float; 0%float]] H))).
Defined.

Lemma mag_residual_sq_writes_argument_witness :
  same_shape [[1%float; 2%float; 3%float]] [[1%float; 0%float; 1%float]] = true /\
  exists after out,
    mag_residual_sq [[1%float; 2%float; 3%float]]
      (Some [[1%float; 0%float; 1%float]]) = Ok (after, out) /\
    same_shape after [[1%float; 0%float; 1%float]] = true.
Proof.
  split; [reflexivity|].
  destruct (proj1 (mag_residual_sq_writes_argument
                     [[1%float; 2%float; 3%float]]
                     [[1%float; 0%float; 1%float]] eq_refl))
    as (after & out & Hcall & Hshape & _).
  exists after, out; split; assumption.
Defined.

Lemma randomise_data_order_pairs_witness :
  Permutation (seq 0 (length data3))
    (drawn_permutation nat rotate_shuffle
       {| bit_generator := 1; seed := SeedFunction |} (length data3)).
Proof.
  exact (proj1 (randomise_data_order_pairs nat rotate_shuffle
                  rotate_shuffle_permutes data3
                  {| bit_generator := 1; seed := SeedFunction |})).
Defined.

Lemma scale_estimate_is_K_rounds_witness :
  forallb (fun x => negb (is_nan x)) [1%float; 3%float] = true /\
  np.nanmean [1%float; 3%float] = np.mean [1%float; 3%float] /\
  initalise_scale_using_residuals_sq [1%float; 3%float] 0.5%float 2
    rho_example default_c_sq =
  scale_round_spec [1%float; 3%float] 0.5%float rho_example default_c_sq
    (scale_round_spec [1%float; 3%float] 0.5%float rho_example default_c_sq
       2%float).
Proof.
  refine (let H := eq_refl in
          let T := scale_estimate_is_K_rounds svd_one_column
                     [1%float; 3%float] 0.5%float 2 rho_example
                     default_c_sq in
          conj H (conj (proj1 (proj2 T) H) (proj1 T))).
Defined.

(** ** The further properties on concrete inputs *)

(** The example weighting has no negative value on arguments that are not
    negative, for a positive shape. *)
Lemma rho_example_not_negative (t c : float) :
  (0 <? c)%float = true -> (t <? 0)%float = false ->
  (rho_example t c <? 0)%float = false.
Proof.
  intros Hc Ht; unfold rho_example.
  destruct (Prim2SF t) as [s| s| |s m e] eqn:Et.
  - destruct s.
    + apply zero_ltb_Prim2SF in Hc as (m' & e' & Hc).
      rewrite ltb_zero_Prim2SF, div_spec, add_spec, Et.
      destruct Hc as [-> | ->]; exact I.
    + apply sign_clear_not_negative, div_sign_clear.
      * unfold sign_clear; now rewrite Et.
      * apply add_sign_clear; [unfold sign_clear; now rewrite Et|].
        now apply sign_clear_not_negative, positive_sign_clear.
  - destruct s.
    + apply ltb_zero_Prim2SF in Ht; rewrite Et in Ht; contradiction.
    + apply sign_clear_not_negative, div_sign_clear.
      * unfold sign_clear; now rewrite Et.
      * apply add_sign_clear; [unfold sign_clear; now rewrite Et|].
        now apply sign_clear_not_negative, positive_sign_clear.
  - apply sign_clear_not_negative, div_sign_clear.
    + unfold sign_clear; now rewrite Et.
    + apply add_sign_clear; [unfold sign_clear; now rewrite Et|].
      now apply sign_clear_not_negative, positive_sign_clear.
  - destruct s.
    + apply ltb_zero_Prim2SF in Ht; rewrite Et in Ht; contradiction.
    + apply sign_clear_not_negative, div_sign_clear.
      * unfold sign_clear; now rewrite Et.
      * apply add_sign_clear; [unfold sign_clear; now rewrite Et|].
        now apply sign_clear_not_negative, positive_sign_clear.
Qed.

Lemma get_mag_residuals_sq_one_per_observation_witness :
  exists residuals_sq,
    get_mag_residuals_sq [[1%float; 2%float]; [3%float; 4%float]]
      [[1%float]; [0%float]] None = Ok residuals_sq /\
    length residuals_sq = 2 /\
    Forall (fun x => (x <? 0)%float = false) residuals_sq.
Proof.
  eexists; split; [vm_compute; reflexivity|].
  apply (get_mag_residuals_sq_one_per_observation
           [[1%float; 2%float]; [3%float; 4%float]] [[1%float]; [0%float]]
           None).
  vm_compute; reflexivity.
Defined.

Lemma bootstrap_state_signs_witness :
  exists st,
    initalise_robust_pca_param svd_one_column data3 None 1 2 0.5%float
      rho_example rho_derivative_example default_c_sq = Ok st /\
    Forall (fun w => (w <? 0)%float = false) (es_W st) /\
    length (es_W st) <= 1 /\
    Forall (fun row => length row <= 1) (es_U st) /\
    (es_sig2 st <? 0)%float = false.
Proof.
  edestruct (bootstrap_state_signs svd_one_column data3 None 1 2 0.5%float
               rho_example rho_derivative_example default_c_sq)
    as (Hvalues & Hcount & Hwidth & Hscale);
    [vm_compute; reflexivity|].
  eexists; split; [vm_compute; reflexivity|].
  split; [exact Hvalues|]; split; [exact Hcount|]; split; [exact Hwidth|].
  apply Hscale; [|reflexivity].
  intros t; now apply rho_example_not_negative.
Defined.

Lemma randomise_data_order_keeps_observations_witness :
  exists data' rnd',
    randomise_data_order nat rotate_shuffle data3 ErrNone
      {| bit_generator := 1; seed := SeedFunction |} =
    Ok (data', ErrNone, rnd') /\
    Permutation data3 data' /\ seed nat rnd' = SeedFunction.
Proof.
  exact (proj1 (randomise_data_order_keeps_observations nat rotate_shuffle
                  rotate_shuffle_permutes data3
                  {| bit_generator := 1; seed := SeedFunction |})).
Defined.

Lemma randomise_data_order_short_mask_witness :
  length [[1%float]] < length data3 /\
  randomise_data_order nat rotate_shuffle data3 (ErrArray [[1%float]])
    {| bit_generator := 1; seed := SeedFunction |} = Raise IndexError.
Proof.
  assert (H : length [[1%float]] < length data3) by (simpl; lia).
  split; [exact H|].
  exact (proj1 (randomise_data_order_short_mask nat rotate_shuffle
                  rotate_shuffle_permutes data3 [[1%float]]
                  {| bit_generator := 1; seed := SeedFunction |}) H).
Defined.

Lemma bootstrap_exceptions_witness :
  initalise_robust_pca_param svd_one_column [[nan]] None 1 1 0.5%float
    rho_example rho_derivative_example default_c_sq =
  Raise (TypeError svd_message) /\
  TypeError svd_message <> LinAlgError.
Proof.
  refine (let H := _ in
          conj H (proj1 (bootstrap_exceptions svd_one_column [[nan]] None 1 1
                           0.5%float rho_example rho_derivative_example
                           default_c_sq (TypeError svd_message) H))).
  vm_compute; reflexivity.
Defined.

Lemma track_eigensystem_updates_writes_one_row_witness :
  exists t',
    track_eigensystem_updates 1 state_example buffers_example 2 1 =
    Ok (t', 2, 1) /\
    tracked_row t' 1 = Some ([5%float], 2%float, 3%float) /\
    tracked_row t' 0 = tracked_row buffers_example 0.
Proof.
  edestruct (track_eigensystem_updates_writes_one_row 1 state_example
               buffers_example 2 1)
    as (_ & (w & Hrow & _) & Hframe);
    try (vm_compute; reflexivity); try lia.
  eexists; split; [vm_compute; reflexivity|].
  split; [vm_compute; reflexivity|].
  apply Hframe; lia.
Defined.

Lemma track_eigensystem_updates_first_call_witness :
  exists t',
    track_eigensystem_updates 0 state_example buffers_example 3 0 =
    Ok (t', 1, 1) /\
    tracked_rows t' = Some 3 /\
    tracked_row t' 0 = Some ([5%float], 2%float, 3%float) /\
    tracked_row t' 2 = Some ([0%float], 0%float, 0%float).
Proof.
  destruct (track_eigensystem_updates_first_call state_example
              buffers_example 3 0) as (t' & Hcall & Hrows & Hfirst & Hrest);
    [lia|].
  exists t'; split; [exact Hcall|]; split; [exact Hrows|].
  split; [exact Hfirst|].
  apply Hrest; simpl; lia.
Defined.

Lemma mean_subtracted_data_shape_and_gaps_witness :
  length (snd (mean_subtracted_data [[1%float; nan]; [3%float; nan]] None)) = 2 /\
  same_shape (fst (mean_subtracted_data [[1%float; nan]; [3%float; nan]] None))
    [[1%float; nan]; [3%float; nan]] = true /\
  exists m,
    nth_error (snd (mean_subtracted_data [[1%float; nan]; [3%float; nan]] None))
      1 = Some m /\ is_nan m = true.
Proof.
  destruct (mean_subtracted_data_shape_and_gaps
              [[1%float; nan]; [3%float; nan]] None)
    as (Hmean & Hshape & _ & Hcolumn).
  - repeat constructor.
  - split; [exact Hmean|]; split; [exact Hshape|].
    apply Hcolumn; [unfold np.shape1; simpl; lia|reflexivity].
Defined.

Lemma bootstrap_with_empty_seed_witness :
  exists st,
    initalise_robust_pca_param svd_one_column data3 None 1 0 0.5%float
      rho_example rho_derivative_example default_c_sq = Ok st /\
    is_nan (es_sig2 st) = true /\
    is_nan (fst (fst (es_vqu st))) = true.
Proof.
  edestruct (bootstrap_with_empty_seed svd_one_column data3 None 1 0.5%float
               rho_example rho_derivative_example default_c_sq)
    as (Hscale & Hv & _);
    [vm_compute; reflexivity|].
  eexists; split; [vm_compute; reflexivity|].
  split; [exact Hscale|exact Hv].
Defined.

Lemma run_robust_pca_overruns_buffers_witness :
  length data3 + 1 < 5 /\ 2 <= 2 /\
  run_robust_pca svd_one_column rho_example rho_derivative_example
    spy_update spy_update keep_data nat rotate_shuffle
    data3 None 1 5 2 None 0.5%float 1%float true default_c_sq 1
    {| bit_generator := 1; seed := SeedFunction |} = Raise IndexError.
Proof.
  split; [simpl; lia|]; split; [lia|].
  etransitivity;
    [eapply (run_robust_pca_overruns_buffers svd_one_column rho_example
               rho_derivative_example spy_update spy_update keep_data nat
               rotate_shuffle rotate_shuffle_permutes
               data3 None 1 5 2 None 0.5%float 1%float default_c_sq 1%Z
               {| bit_generator := 1; seed := SeedFunction |} data3 None);
     try (intros; reflexivity); try (simpl; lia)
    |reflexivity].
Defined.

Lemma run_robust_pca_without_steps_witness :
  exists es rnd',
    run_robust_pca svd_one_column rho_example rho_derivative_example
      spy_update spy_update keep_data nat rotate_shuffle
      data3 None 1 3 1 None 0.5%float 1%float true default_c_sq 1
      {| bit_generator := 1; seed := SeedFunction |} =
    Ok (es, Some EmptyDict, rnd') /\
    initalise_robust_pca_param svd_one_column
      [[2%float]; [3%float]; [1%float]] None 1 3 0.5%float rho_example
      rho_derivative_example default_c_sq = Ok es.
Proof.
  edestruct (run_robust_pca_without_steps svd_one_column rho_example
               rho_derivative_example spy_update spy_update keep_data nat
               rotate_shuffle rotate_shuffle_permutes
               data3 None 1 3 1 None 0.5%float 1%float default_c_sq 1%Z
               {| bit_generator := 1; seed := SeedFunction |} data3 None)
    as (rnd' & Htracked & _);
    try (intros; reflexivity); try (simpl; lia).
  eexists; exists rnd'; split; [exact Htracked|].
  vm_compute; reflexivity.
Defined.

Lemma run_robust_pca_decomposition_failure_witness :
  run_robust_pca svd_one_column rho_example rho_derivative_example
    spy_update spy_update keep_data nat rotate_shuffle
    [[1%float]; [nan]] None 1 1 2 None 0.5%float 1%float true default_c_sq 1
    {| bit_generator := 1; seed := SeedFunction |} =
  Raise (TypeError svd_message).
Proof.
  eapply (run_robust_pca_decomposition_failure svd_one_column rho_example
            rho_derivative_example spy_update spy_update keep_data nat
            rotate_shuffle rotate_shuffle_permutes
            [[1%float]; [nan]] None 1 1 2 None 0.5%float 1%float
            default_c_sq 1%Z
            {| bit_generator := 1; seed := SeedFunction |}
            [[1%float]; [nan]] None);
    try (intros; reflexivity); try (simpl; lia).
Defined.

Lemma run_robust_pca_leaves_generator_witness :
  exists es tr rnd',
    run_robust_pca svd_one_column rho_example rho_derivative_example
      spy_update spy_update keep_data nat rotate_shuffle
      data3 None 1 1 2 None 0.5%float 1%float true default_c_sq 1
      {| bit_generator := 1; seed := SeedFunction |} = Ok (es, tr, rnd') /\
    rnd' = {| bit_generator := 4; seed := SeedOverwritten 1 |}.
Proof.
  eexists _, _, _; split; [vm_compute; reflexivity|].
  edestruct (run_robust_pca_leaves_generator svd_one_column rho_example
               rho_derivative_example spy_update spy_update keep_data
               nat rotate_shuffle rotate_shuffle_permutes
               data3 None 1 1 2 None 0.5%float 1%float true
               default_c_sq 1%Z
               {| bit_generator := 1; seed := SeedFunction |}
               data3 None) as [Hgenerator _];
    try exact Hgenerator; try (vm_compute; reflexivity); try (simpl; lia).
Defined.

Lemma run_robust_pca_zero_memory_witness :
  is_zero (np.of_nat (length data3) * 0) = true /\
  run_robust_pca svd_one_column rho_example rho_derivative_example
    spy_update spy_update_with_gaps keep_data nat rotate_shuffle
    data3 None 1 1 2 None 0.5%float 0%float true default_c_sq 1
    {| bit_generator := 1; seed := SeedFunction |} = Raise ZeroDivisionError.
Proof.
  refine (let H := eq_refl in
          conj H (run_robust_pca_zero_memory svd_one_column rho_example
                    rho_derivative_example spy_update spy_update_with_gaps
                    keep_data nat rotate_shuffle data3 None 1 1 2 0.5%float
                    0%float true default_c_sq 1%Z
                    {| bit_generator := 1; seed := SeedFunction |}
                    data3 None eq_refl H)).
Defined.

(** ** Further checks on concrete values *)

Example forget_parameter_100 :
  forget_parameter 100 1 = Ok 0.99%float /\
  forget_parameter 100 2 = Ok 0.995%float /\
  forget_parameter 100 0 = Raise ZeroDivisionError /\
  forget_parameter 0 1 = Raise ZeroDivisionError.
Proof. repeat split; reflexivity. Qed.

Example nanmean_skips_nan : np.nanmean [1%float; nan; 3%float] = 2%float.
Proof. reflexivity. Qed.

Example small_dataset_with_default_seed_size_raises :
  run_robust_pca svd_one_column rho_example rho_derivative_example
    spy_update spy_update keep_data nat rotate_shuffle
    (firstn 100 data1000) None 100 200 5 None 0.5%float 1%float false
    default_c_sq 1 {| bit_generator := 7; seed := SeedFunction |} =
  Raise IndexError.
Proof. vm_compute; reflexivity. Qed.
